(** * InfiniteMind: the associative thought store of InfiniteMindQuantized.py

    A shallow embedding of the class [InfiniteMind] and the proofs of its
    documented properties.

    Modelling conventions.
    - A Python [str] is a [string]; [str.lower] and [str.split] are written
      out on ASCII texts.
    - A Python [float] is a rational number of [Q] (finite values, exact
      arithmetic); floats are compared by value, so "equal" on importances
      and relevances is [Qeq]. The methods whose result depends on how
      floats round and compare, NaN included, are embedded a second time
      over the binary64 floats, in [Binary64] at the end.
    - A [set] of words is a [gset string], a [dict] is a [gmap].
    - [self] is an explicit record that every method takes and returns.
    - [time.time], [hashlib.md5] and [str] are library functions: they are
      the variables of the section. *)

From Stdlib Require Import QArith Lqa Ascii.
From Stdlib Require Floats.
From stdpp Require Import gmap strings list fin_maps sorting pretty.


(** ** Strings: [str.lower], [str.split], [str.join] *)

Module Str.

(** [c.isspace()] on ASCII: TAB, LF, VT, FF, CR, FS, GS, RS, US, SPACE. *)
Definition isspace (c : ascii) : bool :=
  let n := nat_of_ascii c in
  ((9 <=? n)%nat && (n <=? 13)%nat) || ((28 <=? n)%nat && (n <=? 32)%nat).

Definition isupper (c : ascii) : bool :=
  let n := nat_of_ascii c in (65 <=? n)%nat && (n <=? 90)%nat.

Definition lower_char (c : ascii) : ascii :=
  if isupper c then ascii_of_nat (nat_of_ascii c + 32) else c.

(** [s.lower()] *)
Fixpoint lower (s : string) : string :=
  match s with
  | EmptyString => EmptyString
  | String c s' => String (lower_char c) (lower s')
  end.

(** The scan of [s.split()]: [cur] is the word being read. *)
Fixpoint split_from (cur : string) (s : string) : list string :=
  match s with
  | EmptyString => if decide (cur = "") then [] else [cur]
  | String c s' =>
      if isspace c
      then (if decide (cur = "") then split_from "" s'
            else cur :: split_from "" s')
      else split_from (cur +:+ String c "") s'
  end.

(** [s.split()]: the maximal runs of non-whitespace characters. *)
Definition split (s : string) : list string := split_from "" s.

(** [sep.join(ws)] *)
Fixpoint join (sep : string) (ws : list string) : string :=
  match ws with
  | [] => ""
  | [w] => w
  | w :: ws' => w +:+ sep +:+ join sep ws'
  end.

(** A word: not empty, no whitespace in it. *)
Fixpoint no_space (s : string) : bool :=
  match s with
  | EmptyString => true
  | String c s' => negb (isspace c) && no_space s'
  end.

Definition is_word (s : string) : Prop := s <> "" /\ no_space s = true.

End Str.

Example split_ex : Str.split "  the Cat	sat " = ["the"; "Cat"; "sat"].
Proof. reflexivity. Qed.

Example lower_ex : Str.lower "The CAT z[@`{" = "the cat z[@`{".
Proof. reflexivity. Qed.

Example join_ex : Str.join " " ["red"; "apple"; "pie"] = "red apple pie".
Proof. reflexivity. Qed.

(** ** Python built-ins the class uses *)

(** Floats as rationals; [x < y] as a boolean. *)
Definition Qltb (x y : Q) : bool := negb (Qle_bool y x).

(** [max(a, b)] of Python: [b] when [b > a], else [a]. *)
Definition py_max (a b : Q) : Q := if Qltb a b then b else a.

(** [l[:k]]: a negative [k] counts from the end. *)
Definition slice_to {A} (l : list A) (k : Z) : list A :=
  if (0 <=? k)%Z then take (Z.to_nat k) l
  else take (Z.to_nat (Z.of_nat (length l) + k)) l.

(** [l.remove(x)] when [x] is in [l]: the first occurrence goes. *)
Fixpoint remove_first (x : string) (l : list string) : list string :=
  match l with
  | [] => []
  | y :: l' => if decide (x = y) then l' else y :: remove_first x l'
  end.

(** [min(range(len(l)), key=lambda i: key(l[i]))]: the scan keeps the
    first index whose key is smallest, a later index replaces it only
    when its key is strictly smaller. *)
Fixpoint min_scan {A} (key : A -> Q) (l : list A) (i best : nat) (best_key : Q)
  : nat :=
  match l with
  | [] => best
  | x :: l' =>
      if Qltb (key x) best_key then min_scan key l' (S i) i (key x)
      else min_scan key l' (S i) best best_key
  end.

Definition min_index {A} (key : A -> Q) (l : list A) : option nat :=
  match l with
  | [] => None
  | x :: l' => Some (min_scan key l' 1 0 (key x))
  end.

(** [l.sort(key=key, reverse=True)]: a stable sort, largest key first;
    elements with equal keys keep the order they had. *)
Fixpoint insert_desc {A} (key : A -> Q) (x : A) (l : list A) : list A :=
  match l with
  | [] => [x]
  | y :: l' =>
      if Qltb (key x) (key y) then y :: insert_desc key x l' else x :: l
  end.

Definition sort_reverse {A} (key : A -> Q) (l : list A) : list A :=
  foldr (insert_desc key) [] l.

(** The values [expand] is called with. *)
#[warnings="-register-all"]
Inductive pyval : Type :=
| PNone
| PBool (b : bool)
| PInt (n : Z)
| PStr (s : string)
| PTuple (items : list pyval)
| PList (items : list pyval).

(** [isinstance(v, list)] *)
Definition isinstance_list (v : pyval) : bool :=
  match v with PList _ => true | _ => false end.

(** ** The data model *)

(** One entry of [self.thoughts]: the dict built in [expand]. *)
Module Entry.
Record t : Type := mk {
  content : string;
  importance : Q;
  timestamp : Q;
  id : string;
  depth : Z;
  associations : list string
}.

Definition set_associations (e : t) (a : list string) : t :=
  mk (content e) (importance e) (timestamp e) (id e) (depth e) a.
End Entry.

(** One element of the result of [recall]. *)
Module Scored.
Record t : Type := mk {
  thought : Entry.t;
  relevance : Q
}.
End Scored.

(** One record of [self.evolution_history]. *)
Module Evolution.
Record t : Type := mk {
  original : string;
  evolved : string;
  depth : Z;
  timestamp : Q
}.
End Evolution.

(** The attributes of an [InfiniteMind]; [clock] counts the calls of
    [time.time] made so far. *)
Record InfiniteMind : Type := mkMind {
  thoughts : list Entry.t;
  raw_thoughts : list string;
  associations : gmap string (list string);
  importance_scores : gmap string Q;
  thought_frequency : gmap string nat;
  evolution_history : list Evolution.t;
  capacity : Z;
  _creation_time : Q;
  clock : nat
}.

Definition MAX_THOUGHT_DEPTH : Z := 10.

(** [set(s.lower().split())] *)
Definition word_set (s : string) : gset string :=
  list_to_set (Str.split (Str.lower s)).

(** [d.setdefault(k, [])] for its effect on [d]. *)
Definition setdefault (k : string) (d : gmap string (list string))
  : gmap string (list string) :=
  match d !! k with Some _ => d | None => <[k := []]> d end.

(** [d[k].append(v)] *)
Definition append_at (k v : string) (d : gmap string (list string))
  : gmap string (list string) :=
  alter (fun l => l ++ [v]) k d.

(** [d.setdefault(k, []).append(v)] *)
Definition setdefault_append (k v : string) (d : gmap string (list string))
  : gmap string (list string) :=
  append_at k v (setdefault k d).

(** ** A concrete instance of the library functions, for examples *)

Definition tick_time (n : nat) : Q := inject_Z (Z.of_nat n).

Definition tag_id (s : string) : string := "#" +:+ s.

(** [repr(v)], for strings that need no escape. *)
Fixpoint py_repr (v : pyval) : string :=
  match v with
  | PNone => "None"
  | PBool b => if b then "True" else "False"
  | PInt n => pretty n
  | PStr s => "'" +:+ s +:+ "'"
  | PTuple items =>
      match items with
      | [x] => "(" +:+ py_repr x +:+ ",)"
      | _ => "(" +:+ Str.join ", " (map py_repr items) +:+ ")"
      end
  | PList items => "[" +:+ Str.join ", " (map py_repr items) +:+ "]"
  end.

Definition str_basic (v : pyval) : string :=
  match v with PStr s => s | _ => py_repr v end.

(** ** The methods of [InfiniteMind] *)

Section Methods.

(** [time.time()] as a function of the number of earlier calls,
    [hashlib.md5(s.encode()).hexdigest()[:12]] and [str(v)]. *)
Variable time_time : nat -> Q.
Variable md5_hex12 : string -> string.
Variable py_str : pyval -> string.

(** [InfiniteMind(capacity)] *)
Definition __init__ (capacity : Z) : InfiniteMind :=
  {| thoughts := [];
     raw_thoughts := [];
     associations := ∅;
     importance_scores := ∅;
     thought_frequency := ∅;
     evolution_history := [];
     capacity := capacity;
     _creation_time := time_time 0;
     clock := 1 |}.

(** The body of the loop of [_build_associations] for one [existing]
    entry; the accumulator is [self.associations] and
    [entry['associations']]. The quotient of the two sizes is compared
    with 1/10 exactly: the rounded quotient of two sizes below 2^52 is
    above the float 0.1 exactly when the quotient is above 1/10. *)
Definition link_step (words : gset string) (content_key : string)
    (acc : gmap string (list string) * list string) (existing : Entry.t)
  : gmap string (list string) * list string :=
  let existing_words := word_set (Entry.content existing) in
  let overlap := words ∩ existing_words in
  if decide (overlap = ∅) then acc
  else
    let strength :=
      (inject_Z (Z.of_nat (size overlap))
       / inject_Z (Z.of_nat (Nat.max (size (words ∪ existing_words)) 1)))%Q in
    if Qltb (1 # 10) strength
    then (setdefault_append (Entry.content existing) content_key
            (append_at content_key (Entry.content existing) acc.1),
          acc.2 ++ [Entry.id existing])
    else acc.

(** [self._build_associations(entry)], where [entry] is the dict that
    [expand] has just appended: it is [self.thoughts[-1]], and the ids it
    gains are seen through [self.thoughts]. The loop runs over the copy
    [self.thoughts[:-1]]. *)
Definition _build_associations (self : InfiniteMind) : InfiniteMind :=
  match last (thoughts self) with
  | None => self
  | Some entry =>
      let words := word_set (Entry.content entry) in
      let content_key := Entry.content entry in
      let assoc0 := setdefault content_key (associations self) in
      let r := fold_left (link_step words content_key)
                 (removelast (thoughts self))
                 (assoc0, Entry.associations entry) in
      {| thoughts :=
           removelast (thoughts self) ++ [Entry.set_associations entry r.2];
         raw_thoughts := raw_thoughts self;
         associations := r.1;
         importance_scores := importance_scores self;
         thought_frequency := thought_frequency self;
         evolution_history := evolution_history self;
         capacity := capacity self;
         _creation_time := _creation_time self;
         clock := clock self |}
  end.

(** [self._evict_least_important()] *)
Definition _evict_least_important (self : InfiniteMind) : InfiniteMind :=
  match min_index Entry.importance (thoughts self) with
  | None => self
  | Some min_idx =>
      match thoughts self !! min_idx with
      | None => self
      | Some evicted =>
          {| thoughts := delete min_idx (thoughts self);
             raw_thoughts :=
               if decide (Entry.content evicted ∈ raw_thoughts self)
               then remove_first (Entry.content evicted) (raw_thoughts self)
               else raw_thoughts self;
             associations := associations self;
             importance_scores := importance_scores self;
             thought_frequency := thought_frequency self;
             evolution_history := evolution_history self;
             capacity := capacity self;
             _creation_time := _creation_time self;
             clock := clock self |}
      end
  end.

(** Lines 42-56 of [expand]: the raw string and the new entry are
    appended, the importance score is overwritten and the frequency
    counted. *)
Definition append_thought (self : InfiniteMind) (thought : pyval)
    (importance : Q) : InfiniteMind :=
  let thought_str := py_str thought in
  let entry :=
    Entry.mk thought_str importance (time_time (clock self))
      (md5_hex12 thought_str) 0 [] in
  {| thoughts := thoughts self ++ [entry];
     raw_thoughts := raw_thoughts self ++ [thought_str];
     associations := associations self;
     importance_scores := <[thought_str := importance]> (importance_scores self);
     thought_frequency :=
       <[thought_str := S (default 0%nat (thought_frequency self !! thought_str))]>
         (thought_frequency self);
     evolution_history := evolution_history self;
     capacity := capacity self;
     _creation_time := _creation_time self;
     clock := S (clock self) |}.

(** Lines 62-63: [if len(self.thoughts) > self.capacity: evict]. *)
Definition evict_if_over (self : InfiniteMind) : InfiniteMind :=
  if (capacity self <? Z.of_nat (length (thoughts self)))%Z
  then _evict_least_important self
  else self.

(** One turn of the loop [for thought in thoughts] of [expand]. *)
Definition expand_item (importance : Q) (self : InfiniteMind) (thought : pyval)
  : InfiniteMind :=
  evict_if_over (_build_associations (append_thought self thought importance)).

(** [self.expand(thoughts, importance)]; the list is taken by value. *)
Definition expand (self : InfiniteMind) (thoughts : pyval) (importance : Q)
  : InfiniteMind * list string :=
  let thoughts := if isinstance_list thoughts then thoughts else PList [thoughts] in
  let items := match thoughts with PList items => items | _ => [] end in
  let self' := fold_left (expand_item importance) items self in
  (self', raw_thoughts self').

(** The loop of [recall]: [scored.append] for every entry that shares a
    word with the query. *)
Definition score_step (query_words : gset string) (scored : list Scored.t)
    (thought : Entry.t) : list Scored.t :=
  let thought_words := word_set (Entry.content thought) in
  let overlap := size (query_words ∩ thought_words) in
  if (0 <? overlap)%nat
  then scored ++ [Scored.mk thought
                    (inject_Z (Z.of_nat overlap) * Entry.importance thought)%Q]
  else scored.

(** [self.recall(query, top_k)] *)
Definition recall (self : InfiniteMind) (query : string) (top_k : Z)
  : list Scored.t :=
  let query_words := word_set query in
  let scored := fold_left (score_step query_words) (thoughts self) [] in
  slice_to (sort_reverse Scored.relevance scored) top_k.

(** The loop of [evolve_thought] over [words_a + words_b]; [seen] and
    [evolved_words] are threaded. *)
Definition merge_step (acc : gset string * list string) (w : string)
  : gset string * list string :=
  if decide (Str.lower w ∈ acc.1) then acc
  else ({[Str.lower w]} ∪ acc.1, acc.2 ++ [w]).

Definition merge_words (words_a words_b : list string) : list string :=
  (fold_left merge_step (words_a ++ words_b) (∅, [])).2.

(** [self.evolve_thought(thought, depth)] *)
Definition evolve_thought (self : InfiniteMind) (thought : string) (depth : Z)
  : InfiniteMind * string :=
  if (MAX_THOUGHT_DEPTH <=? depth)%Z then (self, thought)
  else
    match recall self thought 3 with
    | [] => (self, thought)
    | top :: _ =>
        let top_related := Entry.content (Scored.thought top) in
        let words_a := Str.split thought in
        let words_b := Str.split top_related in
        let evolved := Str.join " " (merge_words words_a words_b) in
        ({| thoughts := thoughts self;
            raw_thoughts := raw_thoughts self;
            associations := associations self;
            importance_scores := importance_scores self;
            thought_frequency := thought_frequency self;
            evolution_history :=
              evolution_history self
              ++ [Evolution.mk thought evolved depth (time_time (clock self))];
            capacity := capacity self;
            _creation_time := _creation_time self;
            clock := S (clock self) |},
         evolved)
    end.

(** [self.detect_novelty(thought)] *)
Definition detect_novelty (self : InfiniteMind) (thought : string) : Q :=
  match thoughts self with
  | [] => 1
  | _ =>
      match recall self thought 1 with
      | [] => 1
      | top :: _ => py_max 0 (1 - Scored.relevance top)
      end
  end.


(** ** Runs of [expand] *)

(** The items one call of [expand] loops over. *)
Definition items_of (thoughts : pyval) : list pyval :=
  match thoughts with
  | PList items => items
  | _ => [thoughts]
  end.

(** A sequence of calls [expand(v, importance)], and the items it
    inserts one after the other, each with the importance of its call. *)
Definition item_stream (calls : list (pyval * Q)) : list (pyval * Q) :=
  flat_map (fun c => map (fun t => (t, c.2)) (items_of c.1)) calls.

Definition run_items (self : InfiniteMind) (items : list (pyval * Q))
  : InfiniteMind :=
  fold_left
    (fun s c => expand_item c.2 s c.1) items self.

Definition run_calls (self : InfiniteMind) (calls : list (pyval * Q))
  : InfiniteMind :=
  fold_left
    (fun s c => (expand s c.1 c.2).1) calls self.

(** ** Facts about the rational comparisons *)

Lemma Qltb_lt (x y : Q) : Qltb x y = true <-> (x < y)%Q.
Proof.
  unfold Qltb. rewrite negb_true_iff.
  split.
  - intros H. apply Qnot_le_lt. intros Hle.
    apply Qle_bool_iff in Hle. congruence.
  - intros H. destruct (Qle_bool y x) eqn:E; [|reflexivity].
    apply Qle_bool_iff in E. exfalso. exact (Qlt_not_le _ _ H E).
Qed.

Lemma Qltb_ge (x y : Q) : Qltb x y = false <-> (y <= x)%Q.
Proof.
  unfold Qltb. rewrite negb_false_iff. apply Qle_bool_iff.
Qed.

(** ** Facts about the list built-ins *)

Lemma remove_first_absent (x : string) (l : list string) :
  x ∉ l -> remove_first x l = l.
Proof.
  induction l as [|y l IH]; simpl; [reflexivity|].
  intros Hnot. destruct (decide (x = y)) as [->|Hne].
  - exfalso. apply Hnot. left.
  - f_equal. apply IH. intros Hin. apply Hnot. by right.
Qed.

Lemma remove_first_present (x : string) (l : list string) :
  x ∈ l ->
  exists l1 l2, l = l1 ++ x :: l2 /\ (x ∉ l1) /\ remove_first x l = l1 ++ l2.
Proof.
  induction l as [|y l IH]; simpl.
  - intros H. inversion H.
  - intros Hin. destruct (decide (x = y)) as [->|Hne].
    + exists [], l. split; [reflexivity|]. split; [|reflexivity].
      intros H. inversion H.
    + assert (Hin' : x ∈ l).
      { apply elem_of_cons in Hin as [Heq|Hin']; [congruence|exact Hin']. }
      destruct (IH Hin') as (l1 & l2 & -> & Hnot & Hrem).
      exists (y :: l1), l2. split; [reflexivity|]. split.
      * intros H. apply elem_of_cons in H as [Heq|H']; [congruence|auto].
      * simpl. by rewrite Hrem.
Qed.

(** The result of the scan of [min]: position [r] holds an element that
    is strictly below everything before it and at most everything
    after it. *)
Definition first_min {A} (key : A -> Q) (l : list A) (r : nat) : Prop :=
  exists l1 e l2,
    l = l1 ++ e :: l2 /\ length l1 = r /\
    Forall (fun x => (key e < key x)%Q) l1 /\
    Forall (fun x => (key e <= key x)%Q) l2.

Lemma min_scan_first_min {A} (key : A -> Q) (l : list A) :
  forall l1 e l2,
    Forall (fun x => (key e < key x)%Q) l1 ->
    Forall (fun x => (key e <= key x)%Q) l2 ->
    first_min key (l1 ++ e :: l2 ++ l)
      (min_scan key l (length (l1 ++ e :: l2)) (length l1) (key e)).
Proof.
  induction l as [|x l IH]; intros l1 e l2 H1 H2; simpl.
  - exists l1, e, l2. rewrite app_nil_r. auto.
  - destruct (Qltb (key x) (key e)) eqn:E.
    + apply Qltb_lt in E.
      specialize (IH (l1 ++ e :: l2) x []).
      replace (l1 ++ e :: l2 ++ x :: l) with ((l1 ++ e :: l2) ++ x :: [] ++ l)
        by (rewrite <- app_assoc; reflexivity).
      replace (S (length (l1 ++ e :: l2)))
        with (length ((l1 ++ e :: l2) ++ [x]))
        by (rewrite !length_app; simpl; lia).
      apply IH; [|constructor].
      apply Forall_app. split.
      * eapply Forall_impl; [exact H1|]. intros y Hy. simpl in Hy.
        eapply Qlt_trans; eassumption.
      * constructor; [exact E|].
        eapply Forall_impl; [exact H2|]. intros y Hy. simpl in Hy.
        eapply Qlt_le_trans; eassumption.
    + apply Qltb_ge in E.
      specialize (IH l1 e (l2 ++ [x])).
      replace (l1 ++ e :: l2 ++ x :: l) with (l1 ++ e :: (l2 ++ [x]) ++ l)
        by (rewrite <- (app_assoc l2); reflexivity).
      replace (S (length (l1 ++ e :: l2)))
        with (length (l1 ++ e :: l2 ++ [x]))
        by (rewrite !length_app; simpl; rewrite length_app; simpl; lia).
      apply IH; [exact H1|].
      apply Forall_app. split; [exact H2|]. constructor; [exact E|constructor].
Qed.

Lemma min_index_first_min {A} (key : A -> Q) (l : list A) :
  l <> [] -> exists r, min_index key l = Some r /\ first_min key l r.
Proof.
  destruct l as [|x l]; [congruence|]. intros _.
  eexists. split; [reflexivity|].
  exact (min_scan_first_min key l [] x [] (Forall_nil_2 _) (Forall_nil_2 _)).
Qed.

(** ** Eviction *)

Lemma evict_empty (self : InfiniteMind) :
  thoughts self = [] -> _evict_least_important self = self.
Proof.
  intros H. unfold _evict_least_important. rewrite H. reflexivity.
Qed.

Lemma evict_nonempty (self : InfiniteMind) :
  thoughts self <> [] ->
  exists before evicted after,
    thoughts self = before ++ evicted :: after /\
    Forall (fun e => (Entry.importance evicted < Entry.importance e)%Q) before /\
    Forall (fun e => (Entry.importance evicted <= Entry.importance e)%Q) after /\
    _evict_least_important self =
      {| thoughts := before ++ after;
         raw_thoughts :=
           if decide (Entry.content evicted ∈ raw_thoughts self)
           then remove_first (Entry.content evicted) (raw_thoughts self)
           else raw_thoughts self;
         associations := associations self;
         importance_scores := importance_scores self;
         thought_frequency := thought_frequency self;
         evolution_history := evolution_history self;
         capacity := capacity self;
         _creation_time := _creation_time self;
         clock := clock self |}.
Proof.
  intros Hne.
  destruct (min_index_first_min Entry.importance (thoughts self) Hne)
    as (r & Hidx & l1 & e & l2 & Hl & Hlen & H1 & H2).
  exists l1, e, l2. repeat split; try assumption.
  unfold _evict_least_important. rewrite Hidx, Hl.
  rewrite (list_lookup_middle l1 l2 e r) by congruence.
  subst r. rewrite delete_middle. reflexivity.
Qed.

Lemma evict_length (self : InfiniteMind) :
  thoughts self <> [] ->
  S (length (thoughts (_evict_least_important self))) = length (thoughts self).
Proof.
  intros Hne.
  destruct (evict_nonempty self Hne) as (l1 & e & l2 & Hl & _ & _ & ->).
  simpl. rewrite Hl, !length_app. simpl. lia.
Qed.

Lemma evict_capacity (self : InfiniteMind) :
  capacity (_evict_least_important self) = capacity self.
Proof.
  unfold _evict_least_important.
  destruct (min_index _ _); [|reflexivity].
  destruct (_ !! _); reflexivity.
Qed.

(** C9. Eviction leaves the associations stale: the adjacency map is
    the same map afterwards (so also at the key of the evicted content),
    the entry list only loses one position, so every entry that stays is
    the same record with the same list of association ids, and
    [raw_thoughts] loses at most one string. *)
Theorem evict_leaves_associations (self : InfiniteMind) :
  associations (_evict_least_important self) = associations self /\
  (exists i,
     thoughts (_evict_least_important self) = delete i (thoughts self) /\
     map Entry.associations (thoughts (_evict_least_important self))
     = delete i (map Entry.associations (thoughts self))) /\
  (forall e, e ∈ thoughts (_evict_least_important self) -> e ∈ thoughts self) /\
  (raw_thoughts (_evict_least_important self) = raw_thoughts self \/
   exists r1 c r2,
     raw_thoughts self = r1 ++ c :: r2 /\
     raw_thoughts (_evict_least_important self) = r1 ++ r2).
Proof.
  destruct (decide (thoughts self = [])) as [Hth|Hne].
  - rewrite (evict_empty self Hth), Hth.
    repeat split; auto. exists 0%nat. split; reflexivity.
  - destruct (evict_nonempty self Hne) as (l1 & e & l2 & Hl & _ & _ & ->).
    simpl. rewrite Hl. split; [reflexivity|]. split; [|split].
    + exists (length l1). rewrite delete_middle. split; [reflexivity|].
      rewrite !map_app. simpl.
      rewrite <- (length_map Entry.associations l1).
      by rewrite delete_middle.
    + intros y Hy. apply elem_of_app in Hy as [Hy|Hy];
        apply elem_of_app; [left|right; right]; assumption.
    + destruct (decide (Entry.content e ∈ raw_thoughts self)) as [Hin|Hnot];
        [|by left].
      right.
      destruct (remove_first_present _ _ Hin) as (r1 & r2 & Hr & _ & Hrem).
      exists r1, (Entry.content e), r2. auto.
Qed.

(** ** Ingestion *)

(** The store between the insertion of an item (lines 42-59) and the
    capacity check (line 62). *)
Definition inserted (self : InfiniteMind) (thought : pyval) (importance : Q)
  : InfiniteMind :=
  _build_associations (append_thought self thought importance).

Lemma expand_item_inserted (self : InfiniteMind) (v : pyval) (imp : Q) :
  expand_item imp self v = evict_if_over (inserted self v imp).
Proof. reflexivity. Qed.

Lemma inserted_eq (self : InfiniteMind) (v : pyval) (imp : Q) :
  let key := py_str v in
  let r := fold_left (link_step (word_set key) key) (thoughts self)
             (setdefault key (associations self), []) in
  inserted self v imp =
    {| thoughts :=
         thoughts self
         ++ [Entry.mk key imp (time_time (clock self)) (md5_hex12 key) 0 r.2];
       raw_thoughts := raw_thoughts self ++ [key];
       associations := r.1;
       importance_scores := <[key := imp]> (importance_scores self);
       thought_frequency :=
         <[key := S (default 0%nat (thought_frequency self !! key))]>
           (thought_frequency self);
       evolution_history := evolution_history self;
       capacity := capacity self;
       _creation_time := _creation_time self;
       clock := S (clock self) |}.
Proof.
  unfold inserted, _build_associations. simpl.
  rewrite last_snoc, removelast_last. reflexivity.
Qed.

Lemma inserted_thoughts (self : InfiniteMind) (v : pyval) (imp : Q) :
  exists e,
    thoughts (inserted self v imp) = thoughts self ++ [e] /\
    Entry.content e = py_str v /\ Entry.importance e = imp /\
    Entry.id e = md5_hex12 (py_str v).
Proof.
  rewrite inserted_eq. simpl. eexists. split; [reflexivity|]. auto.
Qed.

Lemma inserted_length (self : InfiniteMind) (v : pyval) (imp : Q) :
  length (thoughts (inserted self v imp)) = S (length (thoughts self)).
Proof.
  destruct (inserted_thoughts self v imp) as (e & -> & _).
  rewrite length_app. simpl. lia.
Qed.

Lemma inserted_capacity (self : InfiniteMind) (v : pyval) (imp : Q) :
  capacity (inserted self v imp) = capacity self.
Proof. rewrite inserted_eq. reflexivity. Qed.

Lemma expand_item_capacity (self : InfiniteMind) (v : pyval) (imp : Q) :
  capacity (expand_item imp self v) = capacity self.
Proof.
  rewrite expand_item_inserted. unfold evict_if_over.
  destruct (_ <? _)%Z; [rewrite evict_capacity|]; apply inserted_capacity.
Qed.

(** What one item does to the number of entries. *)
Lemma expand_item_count (self : InfiniteMind) (v : pyval) (imp : Q) :
  ((capacity self < Z.of_nat (S (length (thoughts self))))%Z ->
   expand_item imp self v = _evict_least_important (inserted self v imp) /\
   length (thoughts (expand_item imp self v)) = length (thoughts self)) /\
  ((Z.of_nat (S (length (thoughts self))) <= capacity self)%Z ->
   expand_item imp self v = inserted self v imp /\
   length (thoughts (expand_item imp self v)) = S (length (thoughts self))).
Proof.
  rewrite expand_item_inserted. unfold evict_if_over.
  rewrite inserted_capacity, inserted_length.
  split; intros H.
  - apply Z.ltb_lt in H as Hb. rewrite Hb. split; [reflexivity|].
    assert (Hne : thoughts (inserted self v imp) <> []).
    { intros E. pose proof (inserted_length self v imp) as Hl.
      rewrite E in Hl. discriminate. }
    pose proof (evict_length _ Hne) as Hl.
    rewrite inserted_length in Hl. lia.
  - assert (Hb : (capacity self <? Z.of_nat (S (length (thoughts self))))%Z
                 = false) by (apply Z.ltb_ge; exact H).
    rewrite Hb. split; [reflexivity|apply inserted_length].
Qed.

Lemma expand_item_within_capacity (self : InfiniteMind) (v : pyval) (imp : Q) :
  (Z.of_nat (length (thoughts self)) <= capacity self)%Z ->
  (Z.of_nat (length (thoughts (expand_item imp self v)))
   <= capacity (expand_item imp self v))%Z.
Proof.
  intros Hinv. rewrite expand_item_capacity.
  destruct (expand_item_count self v imp) as [Hover Hfit].
  destruct (Z_lt_le_dec (capacity self) (Z.of_nat (S (length (thoughts self)))))
    as [Hlt|Hle].
  - destruct (Hover Hlt) as [_ ->]. exact Hinv.
  - destruct (Hfit Hle) as [_ ->]. exact Hle.
Qed.

Lemma run_items_snoc (self : InfiniteMind) (items : list (pyval * Q))
    (c : pyval * Q) :
  run_items self (items ++ [c]) = expand_item c.2 (run_items self items) c.1.
Proof. unfold run_items. rewrite fold_left_app. reflexivity. Qed.

Lemma run_items_within_capacity (self : InfiniteMind)
    (items : list (pyval * Q)) :
  (Z.of_nat (length (thoughts self)) <= capacity self)%Z ->
  (Z.of_nat (length (thoughts (run_items self items))) <= capacity self)%Z /\
  capacity (run_items self items) = capacity self.
Proof.
  intros Hinv. induction items as [|c items IH] using rev_ind.
  - split; [exact Hinv|reflexivity].
  - destruct IH as [IH Hcap]. rewrite run_items_snoc.
    rewrite <- Hcap. split.
    + rewrite <- (expand_item_capacity (run_items self items) c.1 c.2).
      apply expand_item_within_capacity. rewrite Hcap. exact IH.
    + apply expand_item_capacity.
Qed.

(** A call of [expand] inserts its items one after the other. *)
Lemma expand_items_of (self : InfiniteMind) (v : pyval) (imp : Q) :
  (expand self v imp).1 = fold_left (expand_item imp) (items_of v) self.
Proof. destruct v; reflexivity. Qed.

Lemma run_items_same_importance (imp : Q) (l : list pyval) :
  forall self,
    run_items self (map (fun t => (t, imp)) l)
    = fold_left (expand_item imp) l self.
Proof.
  induction l as [|t l IH]; intros self; [reflexivity|]. simpl. apply IH.
Qed.

Lemma run_calls_items (calls : list (pyval * Q)) :
  forall self, run_calls self calls = run_items self (item_stream calls).
Proof.
  induction calls as [|c calls IH]; intros self; [reflexivity|].
  change (run_calls self (c :: calls))
    with (run_calls (expand self c.1 c.2).1 calls).
  rewrite IH, expand_items_of, <- run_items_same_importance.
  unfold run_items, item_stream. simpl. by rewrite fold_left_app.
Qed.

Lemma expand_item_inserted_over (self : InfiniteMind) (v : pyval) (imp : Q) :
  (capacity self < Z.of_nat (S (length (thoughts self))))%Z ->
  expand_item imp self v = _evict_least_important (inserted self v imp).
Proof. intros H. exact (proj1 (proj1 (expand_item_count self v imp) H)). Qed.

(** C1, as the code has it. For a capacity that is not negative: after
    every single item of every sequence of [expand] calls the store holds
    at most [capacity] entries, and so it does after every call. For any
    capacity: an item that pushes the count above the capacity is
    followed by exactly one eviction, which takes the count back to what
    it was before the item. *)
Theorem capacity_invariant (cap : Z) :
  (0 <= cap)%Z ->
  (forall (calls : list (pyval * Q)) (n : nat),
     (Z.of_nat (length (thoughts
        (run_items (__init__ cap) (take n (item_stream calls))))) <= cap)%Z) /\
  (forall calls : list (pyval * Q),
     (Z.of_nat (length (thoughts (run_calls (__init__ cap) calls))) <= cap)%Z) /\
  (forall (self : InfiniteMind) (v : pyval) (imp : Q),
     (capacity self < Z.of_nat (length (thoughts (inserted self v imp))))%Z ->
     expand_item imp self v = _evict_least_important (inserted self v imp) /\
     S (length (thoughts (expand_item imp self v)))
     = length (thoughts (inserted self v imp))).
Proof.
  intros Hcap.
  assert (Hinit : (Z.of_nat (length (thoughts (__init__ cap)))
                   <= capacity (__init__ cap))%Z) by exact Hcap.
  split; [|split].
  - intros calls n.
    exact (proj1 (run_items_within_capacity _ (take n (item_stream calls)) Hinit)).
  - intros calls. rewrite run_calls_items.
    exact (proj1 (run_items_within_capacity _ (item_stream calls) Hinit)).
  - intros self v imp Hover. rewrite inserted_length in *.
    destruct (proj1 (expand_item_count self v imp) Hover) as [Heq Hlen].
    split; [exact Heq|]. rewrite Hlen. reflexivity.
Qed.

(** C10. Only lists are batches: a value that is not a list is one
    item. Its string form is appended once to [raw_thoughts] and one
    entry with that content is appended to [thoughts] (then the capacity
    check runs, and nothing else happens when the store is not over
    capacity); a list is walked item by item. *)
Theorem only_lists_are_batches (self : InfiniteMind) (v : pyval) (imp : Q) :
  (isinstance_list v = false ->
   expand self v imp
   = (expand_item imp self v, raw_thoughts (expand_item imp self v)) /\
   expand_item imp self v = evict_if_over (inserted self v imp) /\
   (exists e,
      thoughts (inserted self v imp) = thoughts self ++ [e] /\
      Entry.content e = py_str v) /\
   raw_thoughts (inserted self v imp) = raw_thoughts self ++ [py_str v] /\
   ((Z.of_nat (S (length (thoughts self))) <= capacity self)%Z ->
    (expand self v imp).1 = inserted self v imp)) /\
  (forall items : list pyval,
     v = PList items ->
     expand self v imp
     = (fold_left (expand_item imp) items self,
        raw_thoughts (fold_left (expand_item imp) items self))).
Proof.
  split.
  - intros Hnot.
    assert (Hex : expand self v imp
                  = (expand_item imp self v,
                     raw_thoughts (expand_item imp self v))).
    { destruct v; try reflexivity. discriminate. }
    split; [exact Hex|]. split; [reflexivity|]. split; [|split].
    + destruct (inserted_thoughts self v imp) as (e & He & Hc & _). eauto.
    + rewrite inserted_eq. reflexivity.
    + intros Hfit. rewrite Hex. simpl.
      exact (proj1 (proj2 (expand_item_count self v imp) Hfit)).
  - intros items ->. reflexivity.
Qed.

(** ** The sort of [recall] *)

(** Largest key first. *)
Definition desc {A} (key : A -> Q) (a b : A) : Prop := (key b <= key a)%Q.

(** The elements whose key is [r], in the order of the list. *)
Definition with_key {A} (key : A -> Q) (r : Q) (l : list A) : list A :=
  List.filter (fun x => Qeq_bool (key x) r) l.

Lemma insert_desc_perm {A} (key : A -> Q) (x : A) (l : list A) :
  Permutation (insert_desc key x l) (x :: l).
Proof.
  induction l as [|y l IH]; simpl; [reflexivity|].
  destruct (Qltb (key x) (key y)); [|reflexivity].
  rewrite IH. apply perm_swap.
Qed.

Lemma insert_desc_sorted {A} (key : A -> Q) (x : A) (l : list A) :
  StronglySorted (desc key) l -> StronglySorted (desc key) (insert_desc key x l).
Proof.
  induction 1 as [|y l Hs IH Hall]; simpl.
  - constructor; constructor.
  - destruct (Qltb (key x) (key y)) eqn:E.
    + apply Qltb_lt in E. constructor; [exact IH|].
      rewrite insert_desc_perm. constructor; [|exact Hall].
      unfold desc. apply Qlt_le_weak, E.
    + apply Qltb_ge in E. constructor.
      * constructor; assumption.
      * constructor; [exact E|].
        eapply Forall_impl; [exact Hall|].
        intros z Hz. unfold desc in *. eapply Qle_trans; eassumption.
Qed.

Lemma insert_desc_stable {A} (key : A -> Q) (r : Q) (x : A) (l : list A) :
  with_key key r (insert_desc key x l) = with_key key r (x :: l).
Proof.
  induction l as [|y l IH]; [reflexivity|].
  simpl. destruct (Qltb (key x) (key y)) eqn:E; [|reflexivity].
  apply Qltb_lt in E. unfold with_key in *. simpl in *. rewrite IH.
  destruct (Qeq_bool (key x) r) eqn:Ex, (Qeq_bool (key y) r) eqn:Ey;
    try reflexivity.
  apply Qeq_bool_iff in Ex, Ey. exfalso.
  rewrite Ex, Ey in E. exact (Qlt_irrefl _ E).
Qed.

Lemma sort_reverse_perm {A} (key : A -> Q) (l : list A) :
  Permutation (sort_reverse key l) l.
Proof.
  induction l as [|x l IH]; simpl; [reflexivity|].
  rewrite insert_desc_perm. by constructor.
Qed.

Lemma sort_reverse_sorted {A} (key : A -> Q) (l : list A) :
  StronglySorted (desc key) (sort_reverse key l).
Proof.
  induction l as [|x l IH]; simpl; [constructor|].
  by apply insert_desc_sorted.
Qed.

Lemma sort_reverse_stable {A} (key : A -> Q) (r : Q) (l : list A) :
  with_key key r (sort_reverse key l) = with_key key r l.
Proof.
  induction l as [|x l IH]; simpl; [reflexivity|].
  rewrite insert_desc_stable. unfold with_key in *. simpl. by rewrite IH.
Qed.

Lemma take_sorted {A} (R : A -> A -> Prop) (n : nat) (l : list A) :
  StronglySorted R l -> StronglySorted R (take n l).
Proof.
  intros Hs. revert n. induction Hs as [|x l Hs IH Hall]; intros [|n]; simpl;
    try constructor; [apply IH|].
  rewrite Forall_forall in *. intros y Hy. apply Hall.
  exact (subseteq_take n l y Hy).
Qed.

(** ** Recall *)

(** [len(query_words & thought_words)] *)
Definition overlap_count (query_words : gset string) (t : Entry.t) : nat :=
  size (query_words ∩ word_set (Entry.content t)).

(** The pair [recall] makes of an entry that matches. *)
Definition score (query_words : gset string) (t : Entry.t) : Scored.t :=
  Scored.mk t (inject_Z (Z.of_nat (overlap_count query_words t))
               * Entry.importance t)%Q.

(** The entries that share a word with the query, in store order. *)
Definition matching (query_words : gset string) (l : list Entry.t)
  : list Entry.t :=
  List.filter (fun t => (0 <? overlap_count query_words t)%nat) l.

(** The matches of a query, scored, in store order. *)
Definition matches (self : InfiniteMind) (query : string) : list Scored.t :=
  map (score (word_set query)) (matching (word_set query) (thoughts self)).

(** The matches of a query, ranked. *)
Definition ranked (self : InfiniteMind) (query : string) : list Scored.t :=
  sort_reverse Scored.relevance (matches self query).

Lemma score_loop (qw : gset string) (l : list Entry.t) :
  forall acc,
    fold_left (score_step qw) l acc = acc ++ map (score qw) (matching qw l).
Proof.
  induction l as [|t l IH]; intros acc; simpl.
  - by rewrite app_nil_r.
  - rewrite IH. unfold score_step, overlap_count at 1.
    fold (overlap_count qw t).
    destruct (0 <? overlap_count qw t)%nat; simpl; [|reflexivity].
    by rewrite <- app_assoc.
Qed.

Lemma recall_ranked (self : InfiniteMind) (query : string) (top_k : Z) :
  recall self query top_k = slice_to (ranked self query) top_k.
Proof.
  unfold recall, ranked, matches. by rewrite score_loop.
Qed.

Lemma elem_of_matches (self : InfiniteMind) (query : string) (s : Scored.t) :
  s ∈ matches self query <->
  exists t,
    t ∈ thoughts self /\ overlap_count (word_set query) t <> 0%nat /\
    s = Scored.mk t (inject_Z (Z.of_nat (overlap_count (word_set query) t))
                     * Entry.importance t)%Q.
Proof.
  unfold matches, matching. rewrite list_elem_of_In, in_map_iff. split.
  - intros (t & <- & Hin). apply filter_In in Hin as [Hin Hov].
    exists t. rewrite list_elem_of_In. repeat split; [exact Hin|].
    apply Nat.ltb_lt in Hov. lia.
  - intros (t & Hin & Hov & ->). exists t. split; [reflexivity|].
    apply filter_In. split; [by apply list_elem_of_In|].
    apply Nat.ltb_lt. lia.
Qed.

Lemma matches_store_order (self : InfiniteMind) (query : string) :
  map Scored.thought (matches self query) `sublist_of` thoughts self.
Proof.
  unfold matches, matching. rewrite map_map. simpl. rewrite map_id.
  induction (thoughts self) as [|t l IH]; simpl; [constructor|].
  destruct (0 <? _)%nat; by constructor.
Qed.

Lemma ranked_length (self : InfiniteMind) (query : string) :
  length (ranked self query) = length (matches self query).
Proof. apply Permutation_length, sort_reverse_perm. Qed.

Lemma elem_of_recall (self : InfiniteMind) (query : string) (top_k : Z)
    (s : Scored.t) :
  s ∈ recall self query top_k -> s ∈ matches self query.
Proof.
  rewrite recall_ranked. unfold slice_to. intros Hin.
  assert (Hr : s ∈ ranked self query).
  { destruct (0 <=? top_k)%Z; exact (subseteq_take _ _ _ Hin). }
  unfold ranked in Hr. by rewrite sort_reverse_perm in Hr.
Qed.

(** C7, as the code has it: [top_k = 0] gives the empty list; a [top_k]
    at least the number of matches gives all of them; a negative [top_k]
    is a slice bound counted from the end, so the last [-top_k] pairs of
    the ranking are dropped and the rest is returned. *)
Theorem recall_top_k_bounds (self : InfiniteMind) (query : string) :
  recall self query 0 = [] /\
  (forall top_k : Z,
     (Z.of_nat (length (matches self query)) <= top_k)%Z ->
     recall self query top_k = ranked self query) /\
  (forall top_k : Z,
     (top_k < 0)%Z ->
     recall self query top_k
     = take (Z.to_nat (Z.of_nat (length (matches self query)) + top_k))
         (ranked self query) /\
     length (recall self query top_k)
     = Z.to_nat (Z.of_nat (length (matches self query)) + top_k)).
Proof.
  split; [|split].
  - rewrite recall_ranked. reflexivity.
  - intros k Hk. rewrite recall_ranked. unfold slice_to.
    assert (H0 : (0 <= k)%Z) by lia.
    rewrite (proj2 (Z.leb_le 0 k) H0).
    apply take_ge. rewrite ranked_length. lia.
  - intros k Hk. rewrite recall_ranked. unfold slice_to.
    rewrite (proj2 (Z.leb_gt 0 k) Hk), ranked_length.
    split; [reflexivity|].
    rewrite length_take, ranked_length. lia.
Qed.

(** ** Novelty *)

Lemma py_max_0_nonneg (x : Q) : (0 <= py_max 0 x)%Q.
Proof.
  unfold py_max. destruct (Qltb 0 x) eqn:E.
  - apply Qltb_lt in E. by apply Qlt_le_weak.
  - apply Qle_refl.
Qed.

Lemma py_max_0_le_1 (r : Q) : (0 <= r)%Q -> (py_max 0 (1 - r) <= 1)%Q.
Proof.
  intros Hr. unfold py_max. destruct (Qltb 0 (1 - r)); [|discriminate].
  lra.
Qed.

Lemma recall_empty_iff (self : InfiniteMind) (query : string) (k : Z) :
  (0 < k)%Z -> (recall self query k = [] <-> matches self query = []).
Proof.
  intros Hk. rewrite recall_ranked. unfold slice_to.
  assert (H0 : (0 <=? k)%Z = true) by (apply Z.leb_le; lia). rewrite H0.
  pose proof (ranked_length self query) as Hlen.
  destruct (Z.to_nat k) as [|n] eqn:En; [lia|].
  destruct (ranked self query) as [|x l], (matches self query) as [|y m];
    simpl in *; try discriminate; split; congruence.
Qed.

(** What [detect_novelty] returns, case by case. *)
Lemma detect_novelty_cases (self : InfiniteMind) (thought : string) :
  (thoughts self = [] -> detect_novelty self thought = 1%Q) /\
  (matches self thought = [] -> detect_novelty self thought = 1%Q) /\
  (forall top rest,
     recall self thought 1 = top :: rest ->
     detect_novelty self thought = py_max 0 (1 - Scored.relevance top)).
Proof.
  unfold detect_novelty. split; [|split].
  - intros ->. reflexivity.
  - intros Hm. apply (recall_empty_iff self thought 1) in Hm; [|lia].
    rewrite Hm. by destruct (thoughts self).
  - intros top rest Hrec. rewrite Hrec.
    destruct (thoughts self) eqn:Hth; [|reflexivity].
    exfalso.
    assert (Hin : top ∈ matches self thought).
    { apply (elem_of_recall self thought 1). rewrite Hrec. left. }
    apply elem_of_matches in Hin as (t & Ht & _). rewrite Hth in Ht.
    inversion Ht.
Qed.

(** X14. The lower bound of the novelty holds for every store. *)
Lemma detect_novelty_nonneg (self : InfiniteMind) (thought : string) :
  (0 <= detect_novelty self thought)%Q.
Proof.
  unfold detect_novelty. destruct (thoughts self); [discriminate|].
  destruct (recall self thought 1); [discriminate|]. apply py_max_0_nonneg.
Qed.

(** X15. The upper bound of the novelty holds when no stored importance
    is negative. *)
Lemma detect_novelty_le_1 (self : InfiniteMind) (thought : string) :
  Forall (fun t => (0 <= Entry.importance t)%Q) (thoughts self) ->
  (detect_novelty self thought <= 1)%Q.
Proof.
  intros Himp. unfold detect_novelty.
  destruct (thoughts self) as [|t0 l0] eqn:Hth; [apply Qle_refl|].
  destruct (recall self thought 1) as [|top rest] eqn:Hrec; [apply Qle_refl|].
  apply py_max_0_le_1.
  assert (Hin : top ∈ matches self thought).
  { apply (elem_of_recall self thought 1). rewrite Hrec. left. }
  apply elem_of_matches in Hin as (t & Ht & _ & ->). simpl.
  rewrite Hth in Ht. rewrite Forall_forall in Himp.
  apply Qmult_le_0_compat; [|by apply Himp].
  change 0%Q with (inject_Z 0). rewrite <- Zle_Qle. lia.
Qed.

(** ** Words: [split] and [join] *)

Lemma append_cons (c : ascii) (s t : string) :
  String c s +:+ t = String c (s +:+ t).
Proof. reflexivity. Qed.

Lemma append_nil_l (s : string) : "" +:+ s = s.
Proof. reflexivity. Qed.

Lemma append_nil_r (s : string) : s +:+ "" = s.
Proof.
  induction s as [|c s IH]; [reflexivity|]. by rewrite append_cons, IH.
Qed.

Lemma append_assoc (s1 s2 s3 : string) :
  (s1 +:+ s2) +:+ s3 = s1 +:+ (s2 +:+ s3).
Proof.
  induction s1 as [|c s1 IH]; [reflexivity|]. by rewrite !append_cons, IH.
Qed.

Lemma no_space_append (s1 s2 : string) :
  Str.no_space (s1 +:+ s2) = Str.no_space s1 && Str.no_space s2.
Proof.
  induction s1 as [|c s1 IH]; [reflexivity|].
  rewrite append_cons. simpl. rewrite IH. by rewrite andb_assoc.
Qed.

(** Every token of [split] is a word. *)
Lemma split_from_words (s : string) :
  forall cur,
    Str.no_space cur = true -> Forall Str.is_word (Str.split_from cur s).
Proof.
  induction s as [|c s IH]; intros cur Hcur; simpl.
  - destruct (decide (cur = "")); constructor; [by split|constructor].
  - destruct (Str.isspace c) eqn:Ec.
    + destruct (decide (cur = "")); [by apply IH|].
      constructor; [by split|by apply IH].
    + apply IH. rewrite no_space_append, Hcur. simpl. by rewrite Ec.
Qed.

Lemma split_words (s : string) : Forall Str.is_word (Str.split s).
Proof. by apply split_from_words. Qed.

(** The scan reads a word in one go. *)
Lemma split_from_word (w : string) :
  forall cur s,
    Str.no_space w = true ->
    Str.split_from cur (w +:+ s) = Str.split_from (cur +:+ w) s.
Proof.
  induction w as [|c w IH]; intros cur s Hw.
  - by rewrite append_nil_r.
  - simpl in Hw. apply andb_true_iff in Hw as [Hc Hw].
    apply negb_true_iff in Hc. rewrite append_cons. simpl.
    rewrite Hc, (IH _ _ Hw), append_assoc. reflexivity.
Qed.

(** Splitting what [join] made of words gives the words back. *)
Lemma split_join (ws : list string) :
  Forall Str.is_word ws -> Str.split (Str.join " " ws) = ws.
Proof.
  unfold Str.split.
  induction 1 as [|w ws [Hne Hw] Hws IH]; [reflexivity|].
  destruct ws as [|w2 ws].
  - simpl. rewrite <- (append_nil_r w) at 1.
    rewrite (split_from_word w "" "" Hw), append_nil_l. simpl.
    by destruct (decide (w = "")).
  - change (Str.join " " (w :: w2 :: ws))
      with (w +:+ " " +:+ Str.join " " (w2 :: ws)).
    set (rest := Str.join " " (w2 :: ws)) in *.
    rewrite (split_from_word w "" _ Hw), append_nil_l.
    rewrite (append_cons " " ""), append_nil_l. simpl.
    destruct (decide (w = "")); [done|]. by rewrite IH.
Qed.

(** ** The merge of [evolve_thought] *)

(** The tokens the loop keeps when it starts with [seen]: a token is
    kept when its lower-cased form was not met before. *)
Fixpoint keep_first (seen : gset string) (l : list string) : list string :=
  match l with
  | [] => []
  | w :: l' =>
      if decide (Str.lower w ∈ seen) then keep_first seen l'
      else w :: keep_first ({[Str.lower w]} ∪ seen) l'
  end.

Lemma merge_loop (l : list string) :
  forall seen out,
    (fold_left merge_step l (seen, out)).2 = out ++ keep_first seen l.
Proof.
  induction l as [|w l IH]; intros seen out; simpl.
  - by rewrite app_nil_r.
  - unfold merge_step at 2. simpl.
    destruct (decide (Str.lower w ∈ seen)); [apply IH|].
    rewrite IH, <- app_assoc. reflexivity.
Qed.

Lemma merge_words_keep_first (words_a words_b : list string) :
  merge_words words_a words_b = keep_first ∅ (words_a ++ words_b).
Proof. unfold merge_words. by rewrite merge_loop. Qed.

Lemma keep_first_sublist (l : list string) :
  forall seen, keep_first seen l `sublist_of` l.
Proof.
  induction l as [|w l IH]; intros seen; simpl; [constructor|].
  destruct (decide _); constructor; apply IH.
Qed.

Lemma keep_first_fresh (l : list string) :
  forall seen w, w ∈ keep_first seen l -> Str.lower w ∉ seen.
Proof using Type.
  induction l as [|x l IH]; intros seen w Hin; simpl in Hin.
  - inversion Hin.
  - destruct (decide (Str.lower x ∈ seen)) as [Hx|Hx]; [by apply IH|].
    apply elem_of_cons in Hin as [->|Hin]; [exact Hx|].
    apply IH in Hin. intros Hs. apply Hin, elem_of_union. by right.
Qed.

Lemma keep_first_NoDup (l : list string) :
  forall seen, NoDup (map Str.lower (keep_first seen l)).
Proof using Type.
  induction l as [|x l IH]; intros seen; simpl; [constructor|].
  destruct (decide (Str.lower x ∈ seen)) as [Hx|Hx]; [apply IH|].
  simpl. constructor; [|apply IH].
  intros Hin. apply list_elem_of_In, in_map_iff in Hin as (w & Hw & Hin).
  apply list_elem_of_In, keep_first_fresh in Hin.
  apply Hin. rewrite Hw. apply elem_of_union. left. by apply elem_of_singleton.
Qed.

Lemma keep_first_covers (l : list string) :
  forall seen w,
    w ∈ l ->
    Str.lower w ∈ seen \/ Str.lower w ∈ map Str.lower (keep_first seen l).
Proof using Type.
  induction l as [|x l IH]; intros seen w Hin; [inversion Hin|].
  simpl. apply elem_of_cons in Hin as [->|Hin].
  - destruct (decide (Str.lower x ∈ seen)); [by left|]. right. simpl. left.
  - destruct (decide (Str.lower x ∈ seen)) as [Hx|Hx]; [by apply IH|].
    destruct (IH ({[Str.lower x]} ∪ seen) w Hin) as [Hs|Hk].
    + apply elem_of_union in Hs as [Hs|Hs]; [|by left].
      apply elem_of_singleton in Hs. right. simpl. rewrite Hs. left.
    + right. simpl. by right.
Qed.

(** A kept token is the first of the list with its lower-cased form. *)
Lemma keep_first_first (l : list string) :
  forall seen w,
    w ∈ keep_first seen l ->
    exists l1 l2,
      l = l1 ++ w :: l2 /\ (Str.lower w ∉ map Str.lower l1) /\
      (Str.lower w ∉ seen).
Proof using Type.
  induction l as [|x l IH]; intros seen w Hin; simpl in Hin; [inversion Hin|].
  destruct (decide (Str.lower x ∈ seen)) as [Hx|Hx].
  - destruct (IH _ _ Hin) as (l1 & l2 & -> & H1 & Hs).
    exists (x :: l1), l2. split; [reflexivity|]. split; [|exact Hs].
    simpl. intros H. apply elem_of_cons in H as [H|H]; [|by apply H1].
    apply Hs. by rewrite H.
  - apply elem_of_cons in Hin as [->|Hin].
    + exists [], l. split; [reflexivity|]. split; [|exact Hx].
      simpl. intros H. inversion H.
    + destruct (IH _ _ Hin) as (l1 & l2 & -> & H1 & Hs).
      exists (x :: l1), l2. split; [reflexivity|]. split.
      * simpl. intros H. apply elem_of_cons in H as [H|H]; [|by apply H1].
        apply Hs. rewrite H. apply elem_of_union. left.
        by apply elem_of_singleton.
      * intros Hin'. apply Hs, elem_of_union. by right.
Qed.

Lemma keep_first_app (l1 l2 : list string) :
  forall seen,
    keep_first seen (l1 ++ l2)
    = keep_first seen l1
      ++ keep_first (list_to_set (map Str.lower l1) ∪ seen) l2.
Proof using Type.
  clear. induction l1 as [|x l1 IH]; intros seen; simpl.
  - by rewrite (left_id_L ∅ (∪)).
  - destruct (decide (Str.lower x ∈ seen)) as [Hx|Hx].
    + rewrite IH. do 2 f_equal. apply set_eq. intros y.
      rewrite !elem_of_union, elem_of_singleton.
      split; [tauto|]. intros [[->|H]|H]; auto.
    + simpl. rewrite IH. do 3 f_equal. apply set_eq. intros y.
      rewrite !elem_of_union, elem_of_singleton. tauto.
Qed.

Lemma keep_first_id (l : list string) :
  forall seen,
    NoDup (map Str.lower l) ->
    (forall w, w ∈ l -> Str.lower w ∉ seen) ->
    keep_first seen l = l.
Proof using Type.
  induction l as [|x l IH]; intros seen Hnd Hfresh; simpl; [reflexivity|].
  simpl in Hnd. apply NoDup_cons in Hnd as [Hx Hnd].
  destruct (decide (Str.lower x ∈ seen)) as [Hin|_].
  - exfalso. apply (Hfresh x); [left|exact Hin].
  - f_equal. apply IH; [exact Hnd|].
    intros w Hw Hin. apply elem_of_union in Hin as [Hin|Hin].
    + apply elem_of_singleton in Hin. apply Hx. rewrite <- Hin.
      apply list_elem_of_In, in_map, list_elem_of_In, Hw.
    + apply (Hfresh w); [by right|exact Hin].
Qed.

(** The tokens of [l] at the positions that [mask] marks. *)
Fixpoint select (mask : list bool) (l : list string) : list string :=
  match mask, l with
  | b :: mask', w :: l' =>
      if b then w :: select mask' l' else select mask' l'
  | _, _ => []
  end.

(** The loop keeps exactly the positions whose token is new: its
    lower-cased form is not in [seen] and is not the lower-cased form of
    a token at an earlier position. *)
Lemma keep_first_mask (l : list string) :
  forall seen,
    exists mask,
      length mask = length l /\
      (forall i w,
         l !! i = Some w ->
         (mask !! i = Some true <->
          (Str.lower w ∉ seen) /\
          forall j w', (j < i)%nat -> l !! j = Some w' ->
                       Str.lower w' <> Str.lower w)) /\
      keep_first seen l = select mask l.
Proof using Type.
  clear. induction l as [|x l IH]; intros seen.
  - exists []. split; [reflexivity|]. split; [|reflexivity].
    intros i w Hi. by destruct i.
  - simpl. destruct (decide (Str.lower x ∈ seen)) as [Hx|Hx].
    + destruct (IH seen) as (mask & Hlen & Hmask & Heq).
      exists (false :: mask). split; [simpl; by rewrite Hlen|].
      split; [|exact Heq].
      intros [|i] w Hi; simpl in *.
      * injection Hi as <-. split; [discriminate|]. intros [Hn _]. done.
      * rewrite (Hmask i w Hi). split.
        -- intros [Hs Hearlier]. split; [exact Hs|].
           intros [|j] w' Hj Hw'; simpl in Hw'.
           ++ injection Hw' as <-. intros Heq'. apply Hs. by rewrite <- Heq'.
           ++ apply (Hearlier j w'); [lia|exact Hw'].
        -- intros [Hs Hearlier]. split; [exact Hs|].
           intros j w' Hj Hw'. apply (Hearlier (S j) w'); [lia|exact Hw'].
    + destruct (IH ({[Str.lower x]} ∪ seen)) as (mask & Hlen & Hmask & Heq).
      exists (true :: mask). split; [simpl; by rewrite Hlen|].
      split; [|simpl; by rewrite Heq].
      intros [|i] w Hi; simpl in *.
      * injection Hi as <-. split; [|reflexivity]. intros _.
        split; [exact Hx|]. intros j w' Hj. lia.
      * rewrite (Hmask i w Hi). split.
        -- intros [Hs Hearlier]. split.
           ++ intros Hin. apply Hs, elem_of_union. by right.
           ++ intros [|j] w' Hj Hw'; simpl in Hw'.
              ** injection Hw' as <-. intros Heq'. apply Hs, elem_of_union.
                 left. by apply elem_of_singleton.
              ** apply (Hearlier j w'); [lia|exact Hw'].
        -- intros [Hs Hearlier]. split.
           ++ intros Hin. apply elem_of_union in Hin as [Hin|Hin]; [|done].
              apply elem_of_singleton in Hin.
              apply (Hearlier 0%nat x); [lia|reflexivity|by symmetry].
           ++ intros j w' Hj Hw'. apply (Hearlier (S j) w'); [lia|exact Hw'].
Qed.

(** C6. The merge of [evolve_thought]: when the thought is merged with
    its top match, the result is the join, with single spaces, of the
    tokens [merged] kept from the tokens of the thought followed by the
    tokens of the match. [merged] keeps the order and the casing of the
    tokens it keeps, has every token in some casing, and each kept token
    is the first one with its lower-cased form; the tokens kept from the
    match are those whose lower-cased form the thought does not have.
    So the tokens of the result are [merged], and no two of them are
    equal when lower-cased. Position by position: [merged] is made of
    the tokens at exactly those positions of the walk where no earlier
    position holds a token with the same lower-cased form, which fixes
    the result. *)
Theorem evolve_merge_correct (self : InfiniteMind) (thought : string)
    (depth : Z) (top : Scored.t) (rest : list Scored.t) :
  (depth < MAX_THOUGHT_DEPTH)%Z ->
  recall self thought 3 = top :: rest ->
  let words_a := Str.split thought in
  let words_b := Str.split (Entry.content (Scored.thought top)) in
  let evolved := (evolve_thought self thought depth).2 in
  exists merged kept_a kept_b,
    evolved = Str.join " " merged /\
    merged `sublist_of` (words_a ++ words_b) /\
    (forall w, w ∈ words_a ++ words_b ->
               Str.lower w ∈ map Str.lower merged) /\
    (forall w, w ∈ merged ->
       exists l1 l2,
         words_a ++ words_b = l1 ++ w :: l2 /\
         (Str.lower w ∉ map Str.lower l1)) /\
    merged = kept_a ++ kept_b /\
    kept_a `sublist_of` words_a /\
    (NoDup (map Str.lower words_a) -> kept_a = words_a) /\
    kept_b `sublist_of` words_b /\
    (forall w, w ∈ kept_b -> Str.lower w ∉ map Str.lower words_a) /\
    NoDup (map Str.lower merged) /\
    Str.split evolved = merged /\
    NoDup (map Str.lower (Str.split evolved)) /\
    exists mask,
      length mask = length (words_a ++ words_b) /\
      (forall i w,
         (words_a ++ words_b) !! i = Some w ->
         (mask !! i = Some true <->
          forall j w', (j < i)%nat -> (words_a ++ words_b) !! j = Some w' ->
                       Str.lower w' <> Str.lower w)) /\
      merged = select mask (words_a ++ words_b).
Proof using Type.
  intros Hdepth Hrec words_a words_b evolved.
  assert (Hev : evolved = Str.join " " (merge_words words_a words_b)).
  { subst evolved. unfold evolve_thought.
    rewrite (proj2 (Z.leb_gt _ _) Hdepth), Hrec. reflexivity. }
  assert (Hsplit : Str.split evolved = merge_words words_a words_b).
  { rewrite Hev. apply split_join. rewrite merge_words_keep_first.
    assert (Hw : Forall Str.is_word (words_a ++ words_b))
      by (apply Forall_app; split; apply split_words).
    rewrite Forall_forall in *. intros w Hin. apply Hw.
    eapply elem_of_sublist; [exact Hin|apply keep_first_sublist]. }
  exists (merge_words words_a words_b), (keep_first ∅ words_a),
    (keep_first (list_to_set (map Str.lower words_a) ∪ ∅) words_b).
  rewrite Hsplit, merge_words_keep_first.
  assert (Hmask : exists mask,
    length mask = length (words_a ++ words_b) /\
    (forall i w,
       (words_a ++ words_b) !! i = Some w ->
       (mask !! i = Some true <->
        forall j w', (j < i)%nat -> (words_a ++ words_b) !! j = Some w' ->
                     Str.lower w' <> Str.lower w)) /\
    keep_first ∅ (words_a ++ words_b) = select mask (words_a ++ words_b)).
  { destruct (keep_first_mask (words_a ++ words_b) ∅)
      as (mask & Hlen & Hm & Heq).
    exists mask. split; [exact Hlen|]. split; [|exact Heq].
    intros i w Hi. rewrite (Hm i w Hi). split; [by intros [_ ?]|].
    intros H. split; [apply not_elem_of_empty|exact H]. }
  split; [by rewrite Hev, merge_words_keep_first|].
  split; [apply keep_first_sublist|].
  split.
  { intros w Hin.
    destruct (keep_first_covers _ ∅ w Hin) as [H|H]; [|exact H].
    by apply not_elem_of_empty in H. }
  split.
  { intros w Hin.
    destruct (keep_first_first _ _ _ Hin) as (l1 & l2 & Hl & H1 & _). eauto. }
  split; [apply keep_first_app|].
  split; [apply keep_first_sublist|].
  split.
  { intros Hnd. apply keep_first_id; [exact Hnd|]. intros w _.
    apply not_elem_of_empty. }
  split; [apply keep_first_sublist|].
  split.
  { intros w Hin Hl. apply keep_first_fresh in Hin. apply Hin.
    apply elem_of_union. left. by apply elem_of_list_to_set. }
  split; [apply keep_first_NoDup|].
  split; [reflexivity|].
  split; [apply keep_first_NoDup|].
  exact Hmask.
Qed.

(** C8. Frame and log of [evolve_thought]: at depth 10 or more, or when
    [recall(thought, top_k=3)] finds nothing, the thought is returned as
    it is and the object is unchanged; otherwise exactly one record
    [{original, evolved, depth, timestamp}] is appended to the history,
    the evolved string is returned and the store is not touched. The
    method does not call itself: below the bound the depth has no effect
    on the string returned. *)
Theorem evolve_frame_and_log (self : InfiniteMind) (thought : string)
    (depth : Z) :
  MAX_THOUGHT_DEPTH = 10%Z /\
  ((MAX_THOUGHT_DEPTH <= depth)%Z \/ recall self thought 3 = [] ->
   evolve_thought self thought depth = (self, thought)) /\
  ((depth < MAX_THOUGHT_DEPTH)%Z -> recall self thought 3 <> [] ->
   let self' := (evolve_thought self thought depth).1 in
   let evolved := (evolve_thought self thought depth).2 in
   evolution_history self'
   = evolution_history self
     ++ [Evolution.mk thought evolved depth (time_time (clock self))] /\
   thoughts self' = thoughts self /\
   raw_thoughts self' = raw_thoughts self /\
   associations self' = associations self /\
   importance_scores self' = importance_scores self /\
   thought_frequency self' = thought_frequency self /\
   capacity self' = capacity self /\
   (forall depth' : Z,
      (depth' < MAX_THOUGHT_DEPTH)%Z ->
      (evolve_thought self thought depth').2 = evolved)).
Proof.
  split; [reflexivity|]. split.
  - intros [Hd|Hr]; unfold evolve_thought.
    + by rewrite (proj2 (Z.leb_le _ _) Hd).
    + rewrite Hr. by destruct (_ <=? _)%Z.
  - intros Hd Hr. unfold evolve_thought.
    rewrite (proj2 (Z.leb_gt _ _) Hd).
    destruct (recall self thought 3) as [|top rest]; [done|]. simpl.
    repeat split.
    intros d' Hd'. by rewrite (proj2 (Z.leb_gt _ _) Hd').
Qed.

(** ** Associations *)

(** The Jaccard similarity of two word sets, as line 77 computes it. *)
Definition jaccard (a b : gset string) : Q :=
  (inject_Z (Z.of_nat (size (a ∩ b)))
   / inject_Z (Z.of_nat (Nat.max (size (a ∪ b)) 1)))%Q.

(** The new entry, with word set [words], is linked to [existing]. *)
Definition linked (words : gset string) (existing : Entry.t) : bool :=
  Qltb (1 # 10) (jaccard words (word_set (Entry.content existing))).

(** Every list of the map [d] is a prefix of its list in [d']. *)
Definition grows (d d' : gmap string (list string)) : Prop :=
  forall k l, d !! k = Some l -> exists l', d' !! k = Some (l ++ l').

Lemma grows_refl (d : gmap string (list string)) : grows d d.
Proof. intros k l H. exists []. by rewrite app_nil_r. Qed.

Lemma grows_trans (d1 d2 d3 : gmap string (list string)) :
  grows d1 d2 -> grows d2 d3 -> grows d1 d3.
Proof.
  intros H12 H23 k l H. destruct (H12 k l H) as (l' & H').
  destruct (H23 k _ H') as (l'' & H''). exists (l' ++ l'').
  by rewrite app_assoc.
Qed.

Lemma setdefault_grows (k : string) (d : gmap string (list string)) :
  grows d (setdefault k d).
Proof.
  unfold setdefault. destruct (d !! k) eqn:E; [apply grows_refl|].
  intros k' l H. exists []. rewrite app_nil_r.
  rewrite lookup_insert_ne; [exact H|]. intros ->. congruence.
Qed.

Lemma setdefault_lookup (k : string) (d : gmap string (list string)) :
  setdefault k d !! k = Some (default [] (d !! k)).
Proof.
  unfold setdefault. destruct (d !! k) eqn:E; simpl; [exact E|].
  apply lookup_insert_eq.
Qed.

Lemma append_at_grows (k v : string) (d : gmap string (list string)) :
  grows d (append_at k v d).
Proof.
  intros k' l H. unfold append_at. destruct (decide (k = k')) as [->|Hne].
  - exists [v]. by rewrite lookup_alter_eq, H.
  - exists []. rewrite app_nil_r. by rewrite lookup_alter_ne.
Qed.

Lemma append_at_lookup (k v : string) (d : gmap string (list string))
    (l : list string) :
  d !! k = Some l -> append_at k v d !! k = Some (l ++ [v]).
Proof. intros H. unfold append_at. by rewrite lookup_alter_eq, H. Qed.

Lemma setdefault_append_grows (k v : string) (d : gmap string (list string)) :
  grows d (setdefault_append k v d).
Proof.
  eapply grows_trans; [apply setdefault_grows|apply append_at_grows].
Qed.

Lemma setdefault_append_lookup (k v : string)
    (d : gmap string (list string)) :
  setdefault_append k v d !! k = Some (default [] (d !! k) ++ [v]).
Proof.
  unfold setdefault_append. apply append_at_lookup, setdefault_lookup.
Qed.

Lemma jaccard_disjoint (a b : gset string) :
  a ∩ b = ∅ -> Qltb (1 # 10) (jaccard a b) = false.
Proof.
  intros H. apply Qltb_ge. unfold jaccard. rewrite H, size_empty.
  unfold Qdiv. rewrite Qmult_0_l. discriminate.
Qed.

Lemma link_step_linked (words : gset string) (content_key : string)
    (acc : gmap string (list string) * list string) (existing : Entry.t) :
  link_step words content_key acc existing =
    if linked words existing
    then (setdefault_append (Entry.content existing) content_key
            (append_at content_key (Entry.content existing) acc.1),
          acc.2 ++ [Entry.id existing])
    else acc.
Proof.
  unfold link_step, linked.
  destruct (decide (words ∩ word_set (Entry.content existing) = ∅)) as [E|E];
    [|reflexivity].
  by rewrite (jaccard_disjoint _ _ E).
Qed.

(** The loop of [_build_associations] over the entries [l]. *)
Lemma link_loop (words : gset string) (key : string) (l : list Entry.t) :
  forall acc,
    is_Some (acc.1 !! key) ->
    let r := fold_left (link_step words key) l acc in
    grows acc.1 r.1 /\
    r.2 = acc.2 ++ map Entry.id (List.filter (linked words) l) /\
    forall A,
      A ∈ l -> linked words A = true ->
      (exists la, r.1 !! key = Some la /\ Entry.content A ∈ la) /\
      (exists lb, r.1 !! Entry.content A = Some lb /\ key ∈ lb).
Proof.
  induction l as [|x l IH]; intros acc Hkey; simpl.
  - split; [apply grows_refl|]. split; [by rewrite app_nil_r|].
    intros A HA. inversion HA.
  - set (acc1 := link_step words key acc x).
    assert (Hg1 : grows acc.1 acc1.1).
    { subst acc1. rewrite link_step_linked.
      destruct (linked words x); [|apply grows_refl]. simpl.
      eapply grows_trans; [apply append_at_grows|].
      apply setdefault_append_grows. }
    assert (Hkey1 : is_Some (acc1.1 !! key)).
    { destruct Hkey as [l0 Hl0]. destruct (Hg1 _ _ Hl0) as (l' & Hl'). eauto. }
    destruct (IH acc1 Hkey1) as (Hg & Hids & Hlinks).
    split; [eapply grows_trans; eassumption|]. split.
    + rewrite Hids. subst acc1. rewrite link_step_linked.
      destruct (linked words x); simpl; [|reflexivity].
      by rewrite <- app_assoc.
    + intros A HA Hlinked. apply elem_of_cons in HA as [->|HA];
        [|by apply Hlinks].
      assert (Hstep :
        (exists la, acc1.1 !! key = Some la /\ Entry.content x ∈ la) /\
        (exists lb, acc1.1 !! Entry.content x = Some lb /\ key ∈ lb)).
      { subst acc1. rewrite link_step_linked, Hlinked. simpl.
        destruct Hkey as [l0 Hl0].
        pose proof (append_at_lookup key (Entry.content x) _ _ Hl0) as Ha.
        split.
        - destruct (setdefault_append_grows (Entry.content x) key _ _ _ Ha)
            as (l' & Hl').
          eexists. split; [exact Hl'|].
          apply elem_of_app. left. apply elem_of_app. right. left.
        - eexists. split; [apply setdefault_append_lookup|].
          apply elem_of_app. right. left. }
      destruct Hstep as [(la & Hla & Hina) (lb & Hlb & Hinb)].
      destruct (Hg _ _ Hla) as (la' & Hla').
      destruct (Hg _ _ Hlb) as (lb' & Hlb').
      split; eexists; (split; [eassumption|]); apply elem_of_app; by left.
Qed.

Lemma evict_if_over_associations (self : InfiniteMind) :
  associations (evict_if_over self) = associations self.
Proof.
  unfold evict_if_over. destruct (_ <? _)%Z; [|reflexivity].
  unfold _evict_least_important.
  destruct (min_index _ _); [|reflexivity].
  destruct (_ !! _); reflexivity.
Qed.

(** C4. Association symmetry: let A be stored when B is inserted, with
    a Jaccard similarity of their lower-cased word sets above 0.1. After
    the insertion the content of A is in the adjacency list of the
    content of B and the content of B is in the adjacency list of the
    content of A, and the id of A is in the association ids of the entry
    of B. The new entry is compared with the entries stored before it
    and with no other: its ids are those of the linked ones among them,
    in store order. *)
Theorem association_symmetry (self : InfiniteMind) (v : pyval) (imp : Q)
    (A : Entry.t) :
  let B := py_str v in
  A ∈ thoughts self ->
  (1 # 10 < jaccard (word_set B) (word_set (Entry.content A)))%Q ->
  let after := expand_item imp self v in
  (exists la, associations after !! B = Some la /\ Entry.content A ∈ la) /\
  (exists lb,
     associations after !! Entry.content A = Some lb /\ B ∈ lb) /\
  (exists e,
     thoughts (inserted self v imp) = thoughts self ++ [e] /\
     Entry.content e = B /\
     Entry.id A ∈ Entry.associations e /\
     Entry.associations e
     = map Entry.id (List.filter (linked (word_set B)) (thoughts self))) /\
  associations after
  = (fold_left (link_step (word_set B) B) (thoughts self)
       (setdefault B (associations self), [])).1.
Proof.
  intros B HA Hj after.
  assert (Hlinked : linked (word_set B) A = true) by (by apply Qltb_lt).
  assert (Hassoc : associations after
    = (fold_left (link_step (word_set B) B) (thoughts self)
         (setdefault B (associations self), [])).1).
  { subst after. rewrite expand_item_inserted, evict_if_over_associations.
    rewrite inserted_eq. reflexivity. }
  assert (Hkey : is_Some ((setdefault B (associations self), @nil string).1 !! B)).
  { simpl. rewrite setdefault_lookup. eauto. }
  destruct (link_loop (word_set B) B (thoughts self) _ Hkey)
    as (_ & Hids & Hlinks).
  destruct (Hlinks A HA Hlinked) as [Hab Hba].
  rewrite Hassoc. split; [exact Hab|]. split; [exact Hba|].
  split; [|reflexivity].
  simpl in Hids. rewrite inserted_eq. cbv zeta. fold B.
  eexists. split; [reflexivity|]. unfold Entry.content, Entry.associations.
  split; [reflexivity|]. rewrite Hids. split; [|reflexivity].
  apply list_elem_of_In, in_map, filter_In. split; [|exact Hlinked].
  by apply list_elem_of_In.
Qed.

(** ** Stores built by the methods *)

(** The stores a program can reach: a fresh one, then any sequence of
    items given to [expand] and of calls of [evolve_thought]. *)
Inductive reachable : InfiniteMind -> Prop :=
| reach_init (cap : Z) : reachable (__init__ cap)
| reach_item (self : InfiniteMind) (v : pyval) (imp : Q) :
    reachable self -> reachable (expand_item imp self v)
| reach_evolve (self : InfiniteMind) (thought : string) (depth : Z) :
    reachable self -> reachable (evolve_thought self thought depth).1.

Lemma run_items_reachable (self : InfiniteMind) (items : list (pyval * Q)) :
  reachable self -> reachable (run_items self items).
Proof.
  intros Hs. induction items as [|c items IH] using rev_ind; [exact Hs|].
  rewrite run_items_snoc. by constructor.
Qed.

Lemma run_calls_reachable (self : InfiniteMind) (calls : list (pyval * Q)) :
  reachable self -> reachable (run_calls self calls).
Proof. rewrite run_calls_items. apply run_items_reachable. Qed.

Lemma evolve_thought_store (self : InfiniteMind) (thought : string) (depth : Z) :
  let self' := (evolve_thought self thought depth).1 in
  thoughts self' = thoughts self /\ raw_thoughts self' = raw_thoughts self /\
  associations self' = associations self /\
  importance_scores self' = importance_scores self /\
  thought_frequency self' = thought_frequency self /\
  capacity self' = capacity self.
Proof.
  unfold evolve_thought. destruct (_ <=? _)%Z; [by repeat split|].
  destruct (recall self thought 3); by repeat split.
Qed.

(** The contents of the entries and the raw strings are the same
    multiset. *)
Definition in_sync (self : InfiniteMind) : Prop :=
  Permutation (map Entry.content (thoughts self)) (raw_thoughts self).

Lemma inserted_in_sync (self : InfiniteMind) (v : pyval) (imp : Q) :
  in_sync self -> in_sync (inserted self v imp).
Proof.
  unfold in_sync. intros H. rewrite inserted_eq. simpl.
  rewrite map_app. simpl. by apply Permutation_app.
Qed.

Lemma evict_in_sync (self : InfiniteMind) :
  in_sync self -> in_sync (_evict_least_important self).
Proof.
  unfold in_sync. intros H.
  destruct (decide (thoughts self = [])) as [He|Hne];
    [by rewrite (evict_empty self He)|].
  destruct (evict_nonempty self Hne) as (l1 & e & l2 & Hl & _ & _ & ->).
  simpl. rewrite Hl in H. rewrite map_app in *. simpl in H.
  assert (Hin : Entry.content e ∈ raw_thoughts self).
  { rewrite <- H. apply elem_of_app. right. left. }
  destruct (decide (Entry.content e ∈ raw_thoughts self)); [|done].
  destruct (remove_first_present _ _ Hin) as (r1 & r2 & Hr & _ & ->).
  rewrite Hr in H. by apply Permutation_app_inv in H.
Qed.

Lemma expand_item_in_sync (self : InfiniteMind) (v : pyval) (imp : Q) :
  in_sync self -> in_sync (expand_item imp self v).
Proof.
  intros H. rewrite expand_item_inserted. unfold evict_if_over.
  destruct (_ <? _)%Z; [apply evict_in_sync|]; by apply inserted_in_sync.
Qed.

(** X1. In every reachable store the contents of the entries are a
    permutation of [raw_thoughts]: the two lists have the same length,
    and the content of every entry is in [raw_thoughts], so the test of
    line 89 never fails. The order can differ. *)
Theorem reachable_in_sync (self : InfiniteMind) :
  reachable self ->
  Permutation (map Entry.content (thoughts self)) (raw_thoughts self) /\
  length (raw_thoughts self) = length (thoughts self) /\
  (forall e, e ∈ thoughts self -> Entry.content e ∈ raw_thoughts self).
Proof.
  intros Hr.
  assert (H : in_sync self).
  { induction Hr as [cap|s v imp _ IH|s t d _ IH].
    - constructor.
    - by apply expand_item_in_sync.
    - unfold in_sync in *.
      destruct (evolve_thought_store s t d) as (-> & -> & _). exact IH. }
  unfold in_sync in H. split; [exact H|]. split.
  - rewrite <- (Permutation_length H). apply length_map.
  - intros e He. rewrite <- H.
    apply list_elem_of_In, in_map, list_elem_of_In, He.
Qed.

Lemma evict_if_over_frame (self : InfiniteMind) :
  let self' := evict_if_over self in
  associations self' = associations self /\
  importance_scores self' = importance_scores self /\
  thought_frequency self' = thought_frequency self /\
  evolution_history self' = evolution_history self /\
  capacity self' = capacity self /\
  clock self' = clock self /\
  thoughts self' `sublist_of` thoughts self.
Proof.
  unfold evict_if_over. destruct (_ <? _)%Z; [|by repeat split].
  destruct (decide (thoughts self = [])) as [He|Hne];
    [by rewrite (evict_empty self He)|].
  destruct (evict_nonempty self Hne) as (l1 & e & l2 & Hl & _ & _ & ->).
  simpl. repeat split. rewrite Hl.
  apply sublist_app; [reflexivity|]. by apply sublist_cons.
Qed.

(** The strings a sequence of items appends, in order. *)
Definition ingested (items : list (pyval * Q)) : list string :=
  map (fun c => py_str c.1) items.

Lemma expand_item_counters (self : InfiniteMind) (v : pyval) (imp : Q) :
  importance_scores (expand_item imp self v)
  = <[py_str v := imp]> (importance_scores self) /\
  thought_frequency (expand_item imp self v)
  = <[py_str v := S (default 0%nat (thought_frequency self !! py_str v))]>
      (thought_frequency self).
Proof.
  rewrite expand_item_inserted.
  destruct (evict_if_over_frame (inserted self v imp)) as (_ & -> & -> & _).
  rewrite inserted_eq. by split.
Qed.

(** X2. [thought_frequency] counts insertions: after any sequence of
    items given to a fresh store, the counter of a string is the number
    of items whose string form it is. Evictions never lower it. *)
Theorem thought_frequency_counts (cap : Z) (items : list (pyval * Q))
    (s : string) :
  default 0%nat (thought_frequency (run_items (__init__ cap) items) !! s)
  = count_occ String.string_dec (ingested items) s.
Proof.
  induction items as [|c items IH] using rev_ind; [reflexivity|].
  rewrite run_items_snoc.
  destruct (expand_item_counters (run_items (__init__ cap) items) c.1 c.2)
    as [_ ->].
  unfold ingested in *. rewrite map_app, count_occ_app. simpl.
  destruct (String.string_dec (py_str c.1) s) as [->|Hne].
  - rewrite lookup_insert_eq. simpl. rewrite IH. lia.
  - rewrite lookup_insert_ne by done. rewrite IH. lia.
Qed.

(** X3. [importance_scores] keeps the last write: after any sequence of
    items given to a fresh store, the score of a string is the
    importance of the last item whose string form it is, and a string
    never ingested has no score. *)
Theorem importance_scores_last_write (cap : Z) (items : list (pyval * Q))
    (s : string) :
  importance_scores (run_items (__init__ cap) items) !! s
  = last (map snd (filter (fun c => py_str c.1 = s) items)).
Proof.
  induction items as [|c items IH] using rev_ind; [reflexivity|].
  rewrite run_items_snoc.
  destruct (expand_item_counters (run_items (__init__ cap) items) c.1 c.2)
    as [-> _].
  rewrite filter_app, map_app.
  destruct (decide (py_str c.1 = s)) as [Heq|Hne].
  - rewrite (filter_cons_True _ c []) by exact Heq.
    rewrite filter_nil. simpl. rewrite last_snoc, Heq.
    apply lookup_insert_eq.
  - rewrite (filter_cons_False _ c []) by exact Hne.
    rewrite filter_nil. simpl. rewrite app_nil_r, <- IH.
    by apply lookup_insert_ne.
Qed.

Lemma dom_setdefault (k : string) (d : gmap string (list string)) :
  dom (setdefault k d) = {[k]} ∪ dom d.
Proof.
  unfold setdefault. destruct (d !! k) eqn:E; [|apply dom_insert_L].
  apply set_eq. intros x. rewrite elem_of_union, elem_of_singleton.
  split; [by right|]. intros [->|H]; [|exact H].
  apply elem_of_dom. eauto.
Qed.

Lemma link_loop_dom (words : gset string) (key : string) (l : list Entry.t) :
  forall acc,
    key ∈ dom acc.1 ->
    (forall e, e ∈ l -> Entry.content e ∈ dom acc.1) ->
    dom (fold_left (link_step words key) l acc).1 = dom acc.1.
Proof.
  induction l as [|x l IH]; intros acc Hkey Hl; [reflexivity|]. simpl.
  assert (Hstep : dom (link_step words key acc x).1 = dom acc.1).
  { rewrite link_step_linked. destruct (linked words x); [|reflexivity].
    simpl. unfold setdefault_append, append_at.
    rewrite dom_alter_L, dom_setdefault, dom_alter_L.
    apply set_eq. intros y. rewrite elem_of_union, elem_of_singleton.
    split; [|by right]. intros [->|H]; [|exact H]. apply Hl. left. }
  rewrite IH; [exact Hstep|by rewrite Hstep|].
  intros e He. rewrite Hstep. apply Hl. by right.
Qed.

(** X4. The keys of the three dicts: after any sequence of items given
    to a fresh store, [associations], [importance_scores] and
    [thought_frequency] have exactly the ingested strings as keys, also
    those whose entry was evicted, and the content of every stored entry
    is such a key. *)
Theorem dict_keys_are_ingested (cap : Z) (items : list (pyval * Q)) :
  let self := run_items (__init__ cap) items in
  dom (associations self) = list_to_set (ingested items) /\
  dom (importance_scores self) = list_to_set (ingested items) /\
  dom (thought_frequency self) = list_to_set (ingested items) /\
  (forall e, e ∈ thoughts self -> Entry.content e ∈ dom (associations self)).
Proof.
  induction items as [|c items IH] using rev_ind.
  - simpl. rewrite !dom_empty_L. repeat split. intros e He. inversion He.
  - cbv zeta in *. destruct IH as (Ha & Hs & Hf & He).
    rewrite run_items_snoc.
    set (self := run_items (__init__ cap) items) in *.
    unfold ingested in *. rewrite map_app, list_to_set_app_L. simpl.
    rewrite (right_id_L ∅ (∪)).
    destruct (expand_item_counters self c.1 c.2) as [-> ->].
    rewrite !dom_insert_L, Hs, Hf.
    rewrite expand_item_inserted.
    destruct (evict_if_over_frame (inserted self c.1 c.2))
      as (-> & _ & _ & _ & _ & _ & Hsub).
    assert (Hdom : dom (associations (inserted self c.1 c.2))
                   = {[py_str c.1]} ∪ dom (associations self)).
    { rewrite inserted_eq. simpl. rewrite link_loop_dom.
      - apply dom_setdefault.
      - simpl. rewrite dom_setdefault. apply elem_of_union. left.
        by apply elem_of_singleton.
      - intros e Hin. simpl. rewrite dom_setdefault.
        apply elem_of_union. right. by apply He. }
    rewrite Hdom, Ha.
    split; [apply (comm_L (∪))|]. split; [apply (comm_L (∪))|].
    split; [apply (comm_L (∪))|].
    intros e Hin. eapply elem_of_sublist in Hin; [|exact Hsub].
    destruct (inserted_thoughts self c.1 c.2) as (e' & Hth & Hc & _).
    rewrite Hth in Hin. apply elem_of_app in Hin as [Hin|Hin].
    + apply elem_of_union. right. rewrite <- Ha. by apply He.
    + apply list_elem_of_singleton in Hin as ->. rewrite Hc.
      apply elem_of_union. left. by apply elem_of_singleton.
Qed.

(** ** The adjacency lists as a symmetric relation *)

(** [self.associations.get(a, [])] *)
Definition adjacency (d : gmap string (list string)) (a : string)
  : list string :=
  default [] (d !! a).

(** [b] is in the list of [a] as often as [a] is in the list of [b]. *)
Definition symmetric (d : gmap string (list string)) : Prop :=
  forall a b,
    count_occ String.string_dec (adjacency d a) b
    = count_occ String.string_dec (adjacency d b) a.

Lemma adjacency_setdefault (k a : string) (d : gmap string (list string)) :
  adjacency (setdefault k d) a = adjacency d a.
Proof.
  unfold adjacency, setdefault. destruct (d !! k) eqn:E; [reflexivity|].
  destruct (decide (k = a)) as [->|Hne].
  - by rewrite lookup_insert_eq, E.
  - by rewrite lookup_insert_ne.
Qed.

Lemma adjacency_append_at (k v a : string) (d : gmap string (list string)) :
  is_Some (d !! k) ->
  adjacency (append_at k v d) a
  = adjacency d a ++ (if decide (a = k) then [v] else []).
Proof.
  intros [l Hl]. unfold adjacency, append_at.
  destruct (decide (a = k)) as [->|Hne].
  - by rewrite lookup_alter_eq, Hl.
  - rewrite lookup_alter_ne by done. by rewrite app_nil_r.
Qed.

Lemma adjacency_setdefault_append (k v a : string)
    (d : gmap string (list string)) :
  adjacency (setdefault_append k v d) a
  = adjacency d a ++ (if decide (a = k) then [v] else []).
Proof.
  unfold setdefault_append. rewrite adjacency_append_at.
  - by rewrite adjacency_setdefault.
  - rewrite setdefault_lookup. eauto.
Qed.

Lemma count_occ_if (a k v b : string) :
  count_occ String.string_dec (if decide (a = k) then [v] else []) b
  = if decide (a = k /\ v = b) then 1%nat else 0%nat.
Proof using Type.
  clear. destruct (decide (a = k)) as [H|H]; simpl.
  - destruct (String.string_dec v b) as [Hv|Hv]; case_decide; tauto.
  - case_decide; tauto.
Qed.

Lemma link_pair_symmetric (key e : string) (d : gmap string (list string)) :
  is_Some (d !! key) -> symmetric d ->
  symmetric (setdefault_append e key (append_at key e d)).
Proof using Type.
  clear. intros Hkey Hsym a b.
  rewrite !adjacency_setdefault_append, !adjacency_append_at by exact Hkey.
  rewrite !count_occ_app, !count_occ_if, (Hsym a b).
  repeat case_decide; destruct_and?; subst; try lia;
    exfalso; intuition congruence.
Qed.

Lemma link_step_key (words : gset string) (key : string)
    (acc : gmap string (list string) * list string) (x : Entry.t) :
  is_Some (acc.1 !! key) -> is_Some ((link_step words key acc x).1 !! key).
Proof.
  intros [l0 Hl0]. rewrite link_step_linked.
  destruct (linked words x); [|eauto]. simpl.
  destruct (append_at_grows key (Entry.content x) _ _ _ Hl0) as (l1 & Hl1).
  destruct (setdefault_append_grows (Entry.content x) key _ _ _ Hl1)
    as (l2 & Hl2).
  eauto.
Qed.

Lemma link_loop_symmetric (words : gset string) (key : string)
    (l : list Entry.t) :
  forall acc,
    is_Some (acc.1 !! key) -> symmetric acc.1 ->
    symmetric (fold_left (link_step words key) l acc).1.
Proof.
  induction l as [|x l IH]; intros acc Hkey Hsym; [exact Hsym|]. simpl.
  apply IH; [by apply link_step_key|].
  rewrite link_step_linked. destruct (linked words x); [|exact Hsym].
  simpl. by apply link_pair_symmetric.
Qed.

(** X5. The adjacency lists are symmetric in every reachable store, with
    multiplicity: a string [b] stands in the list of [a] exactly as many
    times as [a] stands in the list of [b] (a missing key counts as the
    empty list). Eviction keeps it so because it removes nothing. *)
Theorem reachable_adjacency_symmetric (self : InfiniteMind) (a b : string) :
  reachable self ->
  count_occ String.string_dec (default [] (associations self !! a)) b
  = count_occ String.string_dec (default [] (associations self !! b)) a.
Proof.
  intros Hr. revert a b. change (symmetric (associations self)).
  induction Hr as [cap|s v imp _ IH|s t d _ IH].
  - intros a b. reflexivity.
  - rewrite expand_item_inserted.
    destruct (evict_if_over_frame (inserted s v imp)) as (-> & _).
    rewrite inserted_eq. simpl. apply link_loop_symmetric.
    + simpl. rewrite setdefault_lookup. eauto.
    + intros a b. simpl. by rewrite !adjacency_setdefault.
  - by destruct (evolve_thought_store s t d) as (_ & _ & -> & _).
Qed.

(** ** Which entry an insertion evicts *)

(** X6. When an insertion takes the store over its capacity, the new
    entry is the one evicted exactly when every entry stored before is
    strictly more important; if some earlier entry is at most as
    important as the new one, the new entry stays, as the last one. *)
Theorem new_entry_eviction (self : InfiniteMind) (v : pyval) (imp : Q) :
  (capacity self < Z.of_nat (S (length (thoughts self))))%Z ->
  (Forall (fun e => (imp < Entry.importance e)%Q) (thoughts self) ->
   thoughts (expand_item imp self v) = thoughts self) /\
  (Exists (fun e => (Entry.importance e <= imp)%Q) (thoughts self) ->
   exists e,
     last (thoughts (expand_item imp self v)) = Some e /\
     Entry.content e = py_str v /\ Entry.importance e = imp).
Proof.
  intros Hover. rewrite (expand_item_inserted_over self v imp Hover).
  destruct (inserted_thoughts self v imp) as (new & Hth & Hc & Hi & _).
  assert (Hne : thoughts (inserted self v imp) <> []).
  { rewrite Hth. intros E. by apply app_eq_nil in E as [_ ?]. }
  destruct (evict_nonempty _ Hne) as (l1 & ev & l2 & Hl & H1 & H2 & ->).
  simpl. rewrite Hth in Hl.
  destruct l2 as [|x l2 _] using rev_ind.
  - apply app_inj_tail in Hl as [-> ->]. split; [intros _; apply app_nil_r|].
    intros Hex. apply Exists_exists in Hex as (e0 & Hin & Hle).
    rewrite Forall_forall in H1. specialize (H1 e0 Hin). rewrite Hi in H1.
    exfalso. exact (Qlt_not_le _ _ H1 Hle).
  - rewrite app_comm_cons, app_assoc in Hl.
    apply app_inj_tail in Hl as [Hold ->].
    split.
    + intros Hall. rewrite Forall_forall in Hall.
      assert (Hev : ev ∈ thoughts self).
      { rewrite Hold. apply elem_of_app. right. left. }
      specialize (Hall ev Hev).
      apply Forall_app in H2 as [_ Hx]. apply Forall_inv in Hx.
      rewrite Hi in Hx. exfalso. exact (Qlt_not_le _ _ Hall Hx).
    + intros _. exists x. rewrite app_assoc, last_snoc. auto.
Qed.

(** ** More on [recall] and [detect_novelty] *)

Lemma lower_char_idempotent (c : ascii) :
  Str.lower_char (Str.lower_char c) = Str.lower_char c.
Proof.
  destruct c as [b0 b1 b2 b3 b4 b5 b6 b7].
  destruct b0, b1, b2, b3, b4, b5, b6, b7; reflexivity.
Qed.

Lemma lower_idempotent (s : string) : Str.lower (Str.lower s) = Str.lower s.
Proof.
  induction s as [|c s IH]; [reflexivity|]. simpl.
  by rewrite lower_char_idempotent, IH.
Qed.

Lemma word_set_lower (s : string) : word_set (Str.lower s) = word_set s.
Proof. unfold word_set. by rewrite lower_idempotent. Qed.

(** X7. The query is read without regard to case: lower-casing the
    query changes neither the result of [recall] nor the score of
    [detect_novelty]. *)
Theorem recall_ignores_query_case (self : InfiniteMind) (query : string)
    (top_k : Z) :
  recall self (Str.lower query) top_k = recall self query top_k /\
  detect_novelty self (Str.lower query) = detect_novelty self query.
Proof.
  assert (H : forall k, recall self (Str.lower query) k = recall self query k).
  { intros k. unfold recall. by rewrite word_set_lower. }
  split; [apply H|]. unfold detect_novelty. by rewrite H.
Qed.

Lemma matches_length (self : InfiniteMind) (query : string) :
  (length (matches self query) <= length (thoughts self))%nat.
Proof.
  rewrite <- (length_map Scored.thought (matches self query)).
  apply sublist_length, matches_store_order.
Qed.

(** X8. The size of the result of [recall]: never more pairs than
    stored entries; at most [top_k] pairs when [top_k] is not negative;
    no pair at all on an empty store or for a query without a word. *)
Theorem recall_result_size (self : InfiniteMind) (query : string) (top_k : Z) :
  (length (recall self query top_k) <= length (thoughts self))%nat /\
  ((0 <= top_k)%Z ->
   (length (recall self query top_k) <= Z.to_nat top_k)%nat) /\
  (thoughts self = [] -> recall self query top_k = []) /\
  (word_set query = ∅ -> recall self query top_k = []).
Proof.
  assert (Hlen : (length (recall self query top_k)
                  <= length (matches self query))%nat).
  { rewrite recall_ranked, <- ranked_length. unfold slice_to.
    destruct (0 <=? top_k)%Z; rewrite length_take; lia. }
  assert (Hnil : matches self query = [] -> recall self query top_k = []).
  { intros Hm. rewrite Hm in Hlen. simpl in Hlen.
    destruct (recall self query top_k); [reflexivity|simpl in Hlen; lia]. }
  split; [pose proof (matches_length self query); lia|]. split; [|split].
  - intros Hk. rewrite recall_ranked. unfold slice_to.
    rewrite (proj2 (Z.leb_le 0 top_k) Hk), length_take. lia.
  - intros Hth. apply Hnil. unfold matches. by rewrite Hth.
  - intros Hq. apply Hnil. unfold matches, matching. rewrite Hq.
    induction (thoughts self) as [|t l IH]; [reflexivity|]. simpl.
    unfold overlap_count at 1. rewrite (left_absorb_L ∅ (∩)), size_empty.
    simpl. exact IH.
Qed.

(** ** The entries of a reachable store *)

(** What every stored entry looks like. *)
Definition well_formed (self : InfiniteMind) : Prop :=
  forall e,
    e ∈ thoughts self ->
    Entry.depth e = 0%Z /\
    Entry.id e = md5_hex12 (Entry.content e) /\
    Entry.content e ∈ dom (associations self) /\
    forall i,
      i ∈ Entry.associations e ->
      exists k, k ∈ dom (associations self) /\ i = md5_hex12 k.

Lemma inserted_dom (self : InfiniteMind) (v : pyval) (imp : Q) :
  (forall e, e ∈ thoughts self -> Entry.content e ∈ dom (associations self)) ->
  dom (associations (inserted self v imp))
  = {[py_str v]} ∪ dom (associations self).
Proof.
  intros He. rewrite inserted_eq. simpl. rewrite link_loop_dom.
  - apply dom_setdefault.
  - simpl. rewrite dom_setdefault. apply elem_of_union. left.
    by apply elem_of_singleton.
  - intros e Hin. simpl. rewrite dom_setdefault.
    apply elem_of_union. right. by apply He.
Qed.

Lemma inserted_well_formed (self : InfiniteMind) (v : pyval) (imp : Q) :
  well_formed self -> well_formed (inserted self v imp).
Proof.
  intros Hwf.
  assert (Hdom : dom (associations (inserted self v imp))
                 = {[py_str v]} ∪ dom (associations self)).
  { apply inserted_dom. intros e He. by destruct (Hwf e He) as (_ & _ & ? & _). }
  intros e He. rewrite Hdom. revert He. rewrite inserted_eq. simpl.
  intros He. apply elem_of_app in He as [He|He].
  - destruct (Hwf e He) as (Hd & Hi & Hc & Ha). repeat split; try assumption.
    + apply elem_of_union. by right.
    + intros i Hin. destruct (Ha i Hin) as (k & Hk & ->).
      exists k. split; [|reflexivity]. apply elem_of_union. by right.
  - apply list_elem_of_singleton in He as ->. simpl. repeat split.
    + apply elem_of_union. left. by apply elem_of_singleton.
    + intros i Hin.
      assert (Hkey : is_Some ((setdefault (py_str v) (associations self),
                               @nil string).1 !! py_str v)).
      { simpl. rewrite setdefault_lookup. eauto. }
      destruct (link_loop (word_set (py_str v)) (py_str v) (thoughts self)
                  _ Hkey) as (_ & Hids & _).
      simpl in Hids. rewrite Hids in Hin.
      apply list_elem_of_In, in_map_iff in Hin as (e0 & <- & Hin).
      apply filter_In in Hin as [Hin _]. apply list_elem_of_In in Hin.
      destruct (Hwf e0 Hin) as (_ & Hi & Hc & _).
      exists (Entry.content e0). split; [|exact Hi].
      apply elem_of_union. by right.
Qed.

(** X9. Every entry of a reachable store has depth 0 and the id of its
    content; its content is a key of [associations]; and every id in
    its association list is the id of a key of [associations]: the ids
    are never pruned, but they never point outside the map either. *)
Theorem reachable_well_formed (self : InfiniteMind) (e : Entry.t) :
  reachable self ->
  e ∈ thoughts self ->
  Entry.depth e = 0%Z /\
  Entry.id e = md5_hex12 (Entry.content e) /\
  Entry.content e ∈ dom (associations self) /\
  forall i,
    i ∈ Entry.associations e ->
    exists k, k ∈ dom (associations self) /\ i = md5_hex12 k.
Proof.
  intros Hr. revert e. change (well_formed self).
  induction Hr as [cap|s v imp _ IH|s t d _ IH].
  - intros e He. inversion He.
  - rewrite expand_item_inserted.
    pose proof (inserted_well_formed s v imp IH) as Hwf.
    destruct (evict_if_over_frame (inserted s v imp))
      as (Ha & _ & _ & _ & _ & _ & Hsub).
    intros e He. rewrite Ha. apply Hwf.
    eapply elem_of_sublist; eassumption.
  - destruct (evolve_thought_store s t d) as (Hth & _ & Ha & _).
    intros e He. rewrite Ha. apply IH. by rewrite <- Hth.
Qed.

(** X10. How full the store is: for a capacity that is not negative,
    after [n] items a fresh store holds [min n capacity] entries. It
    fills up to the capacity and then stays exactly full. *)
Theorem store_size (cap : Z) (items : list (pyval * Q)) :
  (0 <= cap)%Z ->
  length (thoughts (run_items (__init__ cap) items))
  = Nat.min (length items) (Z.to_nat cap).
Proof.
  intros Hcap. induction items as [|c items IH] using rev_ind.
  - simpl. lia.
  - rewrite run_items_snoc, length_app. simpl.
    set (self := run_items (__init__ cap) items) in *.
    assert (Hc : capacity self = cap).
    { apply (run_items_within_capacity (__init__ cap) items). simpl. lia. }
    destruct (expand_item_count self c.1 c.2) as [Hover Hfit].
    rewrite Hc in Hover, Hfit.
    destruct (Z_lt_le_dec cap (Z.of_nat (S (length (thoughts self)))))
      as [Hlt|Hle].
    + destruct (Hover Hlt) as [_ ->]. lia.
    + destruct (Hfit Hle) as [_ ->]. lia.
Qed.

Lemma reachable_in_sync_length (self : InfiniteMind) :
  reachable self -> length (raw_thoughts self) = length (thoughts self).
Proof.
  intros Hr.
  assert (H : in_sync self).
  { induction Hr as [cap|s v imp _ IH|s t d _ IH].
    - constructor.
    - by apply expand_item_in_sync.
    - unfold in_sync in *.
      destruct (evolve_thought_store s t d) as (-> & -> & _). exact IH. }
  unfold in_sync in H. rewrite <- (Permutation_length H). apply length_map.
Qed.

(** ** The summary *)

(** [max(items, key=key, default=default)]: the first item whose key is
    largest. *)
Definition py_max_by {A} (key : A -> nat) (default : A) (l : list A) : A :=
  match l with
  | [] => default
  | x :: l' =>
      fold_left (fun best y => if (key best <? key y)%nat then y else best) l' x
  end.

(** The integer fields of the dict that [get_knowledge_summary] returns.
    [avg_importance] and [uptime_seconds] are rounded floats, and
    [most_connected_thought] is the first key, in the order of the dict,
    with the longest list: they are left out. *)
Record Summary : Type := mkSummary {
  total_thoughts : nat;
  unique_thoughts : nat;
  total_associations : nat;
  most_connected_count : nat;
  evolution_steps : nat
}.

(** [sum(len(v) for v in d.values())] *)
Definition sum_lengths (d : gmap string (list string)) : nat :=
  map_fold (fun _ v n => (length v + n)%nat) 0%nat d.

(** [max(d.items(), key=lambda x: len(x[1]), default=('none', []))] *)
Definition most_connected (d : gmap string (list string))
  : string * list string :=
  py_max_by (fun x => length x.2) ("none", []) (map_to_list d).

Definition get_knowledge_summary (self : InfiniteMind) : Summary :=
  let total := length (thoughts self) in
  let most_connected := most_connected (associations self) in
  {| total_thoughts := total;
     unique_thoughts :=
       size (list_to_set (raw_thoughts self) : gset string);
     total_associations := sum_lengths (associations self);
     most_connected_count := length most_connected.2;
     evolution_steps := length (evolution_history self) |}.

Lemma py_max_by_fold {A} (key : A -> nat) (l : list A) :
  forall x,
    let r := fold_left
               (fun best y => if (key best <? key y)%nat then y else best) l x in
    (r = x \/ r ∈ l) /\ (key x <= key r)%nat /\
    forall y, y ∈ l -> (key y <= key r)%nat.
Proof.
  induction l as [|z l IH]; intros x; simpl.
  - split; [by left|]. split; [lia|]. intros y Hy. inversion Hy.
  - destruct (IH (if (key x <? key z)%nat then z else x)) as (Hin & Hge & Hall).
    split; [|split].
    + destruct Hin as [Hin|Hin]; [|right; by right].
      rewrite Hin. destruct (key x <? key z)%nat; [right; left|by left].
    + destruct (key x <? key z)%nat eqn:E; [|exact Hge].
      apply Nat.ltb_lt in E. lia.
    + intros y Hy. apply elem_of_cons in Hy as [->|Hy]; [|by apply Hall].
      destruct (key x <? key z)%nat eqn:E; [exact Hge|].
      apply Nat.ltb_ge in E. lia.
Qed.

Lemma py_max_by_spec {A} (key : A -> nat) (default : A) (l : list A) :
  (l = [] /\ py_max_by key default l = default \/
   py_max_by key default l ∈ l) /\
  forall y, y ∈ l -> (key y <= key (py_max_by key default l))%nat.
Proof.
  destruct l as [|x l]; simpl.
  - split; [by left|]. intros y Hy. inversion Hy.
  - destruct (py_max_by_fold key l x) as (Hin & Hge & Hall). split.
    + right. destruct Hin as [->|Hin]; [left|by right].
    + intros y Hy. apply elem_of_cons in Hy as [->|Hy]; [exact Hge|].
      by apply Hall.
Qed.

Lemma sum_lengths_comm (j1 j2 : string) (z1 z2 : list string) (y : nat) :
  (length z1 + (length z2 + y) = length z2 + (length z1 + y))%nat.
Proof. lia. Qed.

Lemma sum_lengths_lookup (d : gmap string (list string)) (k : string)
    (l : list string) :
  d !! k = Some l ->
  sum_lengths d = (length l + sum_lengths (delete k d))%nat.
Proof.
  intros H. unfold sum_lengths.
  apply (map_fold_delete_L (fun (_ : string) v n => (length v + n)%nat));
    [|exact H].
  intros. apply sum_lengths_comm; assumption.
Qed.

Lemma sum_lengths_setdefault (k : string) (d : gmap string (list string)) :
  sum_lengths (setdefault k d) = sum_lengths d.
Proof.
  unfold setdefault. destruct (d !! k) eqn:E; [reflexivity|].
  unfold sum_lengths.
  rewrite (map_fold_insert_L (fun (_ : string) v n => (length v + n)%nat));
    [reflexivity| |exact E].
  intros. apply sum_lengths_comm; assumption.
Qed.

Lemma sum_lengths_append_at (k v : string) (d : gmap string (list string)) :
  is_Some (d !! k) -> sum_lengths (append_at k v d) = S (sum_lengths d).
Proof.
  intros [l Hl].
  rewrite (sum_lengths_lookup d k l Hl).
  rewrite (sum_lengths_lookup (append_at k v d) k (l ++ [v]))
    by (by apply append_at_lookup).
  unfold append_at. rewrite delete_alter_eq, length_app. simpl. lia.
Qed.

Lemma sum_lengths_link_loop (words : gset string) (key : string)
    (l : list Entry.t) :
  forall acc,
    is_Some (acc.1 !! key) ->
    exists n,
      sum_lengths (fold_left (link_step words key) l acc).1
      = (sum_lengths acc.1 + 2 * n)%nat.
Proof.
  induction l as [|x l IH]; intros acc Hkey; simpl.
  - exists 0%nat. lia.
  - destruct (IH _ (link_step_key words key acc x Hkey)) as (n & ->).
    rewrite link_step_linked. destruct (linked words x); [|by exists n].
    simpl. unfold setdefault_append.
    rewrite sum_lengths_append_at by (rewrite setdefault_lookup; eauto).
    rewrite sum_lengths_setdefault, sum_lengths_append_at by exact Hkey.
    exists (S n). lia.
Qed.

Lemma size_list_to_set_le (l : list string) :
  (size (list_to_set l : gset string) <= length l)%nat.
Proof.
  induction l as [|x l IH].
  { rewrite list_to_set_nil, size_empty. simpl. lia. }
  rewrite list_to_set_cons, size_union_alt, size_singleton. simpl.
  assert (H : (size (list_to_set l ∖ {[x]} : gset string)
               <= size (list_to_set l : gset string))%nat).
  { apply subseteq_size. intros y Hy. by apply elem_of_difference in Hy as [? _]. }
  lia.
Qed.

(** X12. The counts of the summary of a reachable store:
    [unique_thoughts] is at most [total_thoughts]; [total_associations]
    is even, since every link is written in both directions; and
    [most_connected_count] is the length of the longest adjacency list,
    whichever key [max] picks among the longest, and at most
    [total_associations]. *)
Theorem summary_counts (self : InfiniteMind) :
  reachable self ->
  let r := get_knowledge_summary self in
  (unique_thoughts r <= total_thoughts r)%nat /\
  Nat.Even (total_associations r) /\
  (forall k l, associations self !! k = Some l ->
               (length l <= most_connected_count r)%nat) /\
  (most_connected_count r <= total_associations r)%nat.
Proof.
  intros Hr. simpl. split; [|split; [|split]].
  - rewrite <- (reachable_in_sync_length self Hr).
    apply size_list_to_set_le.
  - induction Hr as [cap|s v imp _ IH|s t d _ IH].
    + exists 0%nat. reflexivity.
    + rewrite expand_item_inserted.
      destruct (evict_if_over_frame (inserted s v imp)) as (-> & _).
      rewrite inserted_eq. simpl.
      destruct (sum_lengths_link_loop (word_set (py_str v)) (py_str v)
                  (thoughts s) (setdefault (py_str v) (associations s), []))
        as (n & ->).
      { simpl. rewrite setdefault_lookup. eauto. }
      simpl. rewrite sum_lengths_setdefault. destruct IH as (m & ->).
      exists (m + n)%nat. lia.
    + by destruct (evolve_thought_store s t d) as (_ & _ & -> & _).
  - intros k l Hl. unfold most_connected.
    apply (proj2 (py_max_by_spec (fun x : string * list string => length x.2)
                    ("none", []) (map_to_list (associations self))) (k, l)).
    by apply elem_of_map_to_list.
  - unfold most_connected.
    destruct (proj1 (py_max_by_spec
                (fun x : string * list string => length x.2)
                ("none", []) (map_to_list (associations self))))
      as [[_ ->]|Hin]; [simpl; lia|].
    destruct (py_max_by _ _ _) as [k l]. apply elem_of_map_to_list in Hin.
    rewrite (sum_lengths_lookup _ _ _ Hin). simpl. lia.
Qed.

(** X13. A thought without a match is new and does not evolve: when no
    stored entry shares a word with it, [detect_novelty] gives 1 and
    [evolve_thought] returns it unchanged; below the depth bound
    [evolve_thought] logs a step exactly when there is a match. *)
Theorem no_match_is_novel (self : InfiniteMind) (thought : string) (depth : Z) :
  (matches self thought = [] ->
   detect_novelty self thought = 1%Q /\
   evolve_thought self thought depth = (self, thought)) /\
  ((depth < MAX_THOUGHT_DEPTH)%Z ->
   (matches self thought <> [] <->
    length (evolution_history (evolve_thought self thought depth).1)
    = S (length (evolution_history self)))).
Proof.
  split.
  - intros Hm. split; [by apply detect_novelty_cases|].
    apply (recall_empty_iff self thought 3) in Hm; [|lia].
    unfold evolve_thought. rewrite Hm. by destruct (_ <=? _)%Z.
  - intros Hd. unfold evolve_thought. rewrite (proj2 (Z.leb_gt _ _) Hd).
    rewrite <- (recall_empty_iff self thought 3) by lia.
    destruct (recall self thought 3); simpl.
    + split; [done|lia].
    + split; [|done]. intros _. rewrite length_app. simpl. lia.
Qed.

End Methods.

(** ** Examples and instances *)

(** Example scenario 1 of the design note: capacity 2, two tied
    thoughts, then a third one. *)
Definition scenario1_calls : list (pyval * Q) :=
  [(PList [PStr "the cat sat"; PStr "the cat ran"], 1%Q);
   (PStr "a dog barked", 5%Q)].

Definition scenario1 : InfiniteMind :=
  run_calls tick_time tag_id str_basic (__init__ tick_time 2) scenario1_calls.

Example scenario1_contents :
  map Entry.content (thoughts scenario1) = ["the cat ran"; "a dog barked"]
  /\ raw_thoughts scenario1 = ["the cat ran"; "a dog barked"].
Proof. split; vm_compute; reflexivity. Qed.

(** Example scenario 2: two thoughts that share a word with the query. *)
Definition scenario2 : InfiniteMind :=
  run_calls tick_time tag_id str_basic (__init__ tick_time 10000)
    [(PList [PStr "quantum computing is hard";
             PStr "computing hardware is fast"], 1%Q)].

Example scenario2_recall :
  map (fun s => Entry.content (Scored.thought s)) (recall scenario2 "computing" 1)
  = ["quantum computing is hard"].
Proof. vm_compute. reflexivity. Qed.

(** Example scenario 3: the merge of ["red apple pie"] with its match. *)
Definition scenario3 : InfiniteMind :=
  run_calls tick_time tag_id str_basic (__init__ tick_time 10000)
    [(PStr "apple pie recipe", 1%Q)].

Example scenario3_evolve :
  (evolve_thought tick_time scenario3 "red apple pie" 0).2
  = "red apple pie recipe".
Proof. vm_compute. reflexivity. Qed.

(** Example scenario 4: no shared word, novelty 1. *)
Example scenario4_novelty :
  detect_novelty scenario3 "completely unrelated phrase" = 1%Q.
Proof. vm_compute. reflexivity. Qed.

(** A store whose only thought has a negative importance. *)
Definition negative_store : InfiniteMind :=
  run_calls tick_time tag_id str_basic (__init__ tick_time 10000)
    [(PStr "a", (-1)%Q)].

(** C1 fails for a negative capacity: with capacity -1 the store is empty
    after the first item, and 0 is not at most -1. *)
Lemma capacity_invariant_negative_capacity :
  ~ (Z.of_nat (length (thoughts
        (run_items tick_time tag_id str_basic (__init__ tick_time (-1))
           (take 1 (item_stream [(PStr "a", 1%Q)]))))) <= -1)%Z.
Proof. vm_compute. intros H. apply H. reflexivity. Qed.

Lemma capacity_invariant_witness :
  (0 <= 2)%Z /\
  (Z.of_nat (length (thoughts
     (run_items tick_time tag_id str_basic (__init__ tick_time 2)
        (take 3 (item_stream scenario1_calls))))) <= 2)%Z.
Proof.
  split; [lia|].
  exact (proj1 (capacity_invariant tick_time tag_id str_basic 2 ltac:(lia))
           scenario1_calls 3%nat).
Defined.

Lemma association_symmetry_witness :
  exists la,
    associations
      (expand_item tick_time tag_id str_basic 1 scenario3 (PStr "red apple pie"))
    !! "red apple pie" = Some la /\
    "apple pie recipe" ∈ la.
Proof.
  refine (proj1 (association_symmetry tick_time tag_id str_basic scenario3
                   (PStr "red apple pie") 1
                   (Entry.mk "apple pie recipe" 1 (tick_time 1)
                      (tag_id "apple pie recipe") 0 []) _ _)).
  - vm_compute. left.
  - vm_compute. reflexivity.
Defined.

(** C5 fails on [negative_store]: the best match of ["a"] has relevance
    -1, and the novelty of ["a"] is 2. *)
Theorem detect_novelty_above_one :
  (detect_novelty negative_store "a" == 2)%Q /\
  ~ (detect_novelty negative_store "a" <= 1)%Q.
Proof. split; vm_compute; [reflexivity|]. intros H. apply H. reflexivity. Qed.

Lemma evolve_merge_correct_witness :
  exists merged,
    (evolve_thought tick_time scenario3 "red apple pie" 0).2
    = Str.join " " merged /\
    NoDup (map Str.lower merged).
Proof.
  destruct (evolve_merge_correct tick_time scenario3 "red apple pie" 0
              (Scored.mk
                 (Entry.mk "apple pie recipe" 1 (tick_time 1)
                    (tag_id "apple pie recipe") 0 [])
                 (inject_Z 2 * 1)) [])
    as (merged & ka & kb & Hev & _ & _ & _ & _ & _ & _ & _ & _ & Hnd & _).
  - vm_compute. reflexivity.
  - vm_compute. reflexivity.
  - exists merged. split; assumption.
Defined.

(** The merge keeps a token where it first occurs: ["a b a"] merged with
    the stored thought ["a"] is ["a b"]. *)
Example evolve_keeps_first_occurrence :
  (evolve_thought tick_time
     (run_calls tick_time tag_id str_basic (__init__ tick_time 10000)
        [(PStr "a", 1%Q)])
     "a b a" 0).2
  = "a b".
Proof. vm_compute. reflexivity. Qed.

(** C7 fails for a negative [top_k]: with two matches, [top_k = -1]
    returns the first of them. *)
Lemma recall_negative_top_k_not_empty :
  (-1 <= 0)%Z /\ recall scenario2 "computing" (-1) <> [].
Proof. split; [lia|]. vm_compute. discriminate. Qed.

Lemma recall_top_k_bounds_witness :
  recall scenario2 "computing" 7 = ranked scenario2 "computing".
Proof.
  apply (proj1 (proj2 (recall_top_k_bounds scenario2 "computing")) 7%Z).
  vm_compute. discriminate.
Defined.

Lemma evolve_frame_and_log_witness :
  evolve_thought tick_time scenario3 "red apple pie" 10
  = (scenario3, "red apple pie").
Proof.
  apply (proj1 (proj2 (evolve_frame_and_log tick_time scenario3
                         "red apple pie" 10))).
  left. vm_compute. discriminate.
Defined.

Lemma only_lists_are_batches_witness :
  raw_thoughts
    (inserted tick_time tag_id str_basic scenario3
       (PTuple [PStr "x"; PInt 2]) 1)
  = raw_thoughts scenario3 ++ ["('x', 2)"].
Proof.
  refine (proj1 (proj2 (proj2 (proj2
    (proj1 (only_lists_are_batches tick_time tag_id str_basic scenario3
              (PTuple [PStr "x"; PInt 2]) 1) _))))).
  reflexivity.
Defined.

(** * QuantumAgent: the task agent of agent.py

    The agent keeps a memory of items, a queue of tasks and a table of
    priority weights. A task is a dict that [add_task] creates and that
    lives in [task_queue]; a reference to it is its position in the
    queue. *)

Module Agent.

(** [needle in hay] on strings. *)
Fixpoint contains (needle hay : string) : bool :=
  String.prefix needle hay
  || match hay with
     | EmptyString => false
     | String _ hay' => contains needle hay'
     end.

(** [any(kw in text for kw in keywords)] *)
Definition any_in (keywords : list string) (text : string) : bool :=
  existsb (fun kw => contains kw text) keywords.

(** The four values [t['status']] takes. *)
Inductive Status : Type := pending | in_progress | completed | failed.

Definition is_pending (s : Status) : bool :=
  match s with pending => true | _ => false end.

(** A task dict; the keys ['started_at'], ['completed_at'] and
    ['success'] are absent until they are set. *)
Record Task : Type := mkTask {
  description : string;
  priority : Q;
  status : Status;
  created_at : Q;
  metadata : gmap string pyval;
  started_at : option Q;
  completed_at : option Q;
  success : option bool
}.

(** A record of [goal_history]. *)
Record GoalRecord : Type := mkGoalRecord {
  timestamp : Q;
  goals_found : nat;
  memory_size : nat
}.

(** A record of [performance_log]. *)
Record Performance : Type := mkPerformance {
  perf_task : string;
  perf_success : bool;
  perf_reward : Q;
  perf_duration : Q
}.

(** The attributes of a [QuantumAgent]; [clock] counts the calls of
    [time.time]; [priority_weights] is a [defaultdict] whose default is
    1.0. *)
Record QuantumAgent : Type := mkAgent {
  memory : list pyval;
  goal_history : list GoalRecord;
  task_queue : list Task;
  performance_log : list Performance;
  learning_rate : Q;
  priority_weights : gmap string Q;
  _start_time : Q;
  clock : nat
}.

(** The literal dict of [_categorize_goal], in its order. *)
Definition categories : list (string * list string) :=
  [("quantum", ["quantum"; "qubit"; "entangle"; "superposition"]);
   ("security", ["security"; "encrypt"; "protect"; "defense"]);
   ("learning", ["learn"; "train"; "improve"; "optimize"]);
   ("integration", ["integrate"; "connect"; "merge"; "unify"]);
   ("deployment", ["deploy"; "scale"; "production"; "release"])].

(** The loop of [_categorize_goal] over the categories left. *)
Fixpoint categorize_from (cats : list (string * list string))
    (goal_text : string) : string :=
  match cats with
  | [] => "general"
  | (category, keywords) :: cats' =>
      if any_in keywords goal_text then category
      else categorize_from cats' goal_text
  end.

(** [self._categorize_goal(goal_text)] *)
Definition _categorize_goal (goal_text : string) : string :=
  categorize_from categories goal_text.

(** The tasks of a queue with their positions, from position [k] on. *)
Fixpoint enumerate_from (k : nat) (l : list Task) : list (nat * Task) :=
  match l with
  | [] => []
  | t :: l' => (k, t) :: enumerate_from (S k) l'
  end.

Section Methods.

Variable time_time : nat -> Q.
Variable py_str : pyval -> string.

(** [QuantumAgent(memory)]: [memory or []]. *)
Definition __init__ (memory : option (list pyval)) : QuantumAgent :=
  {| memory := default [] memory;
     goal_history := [];
     task_queue := [];
     performance_log := [];
     learning_rate := 1 # 100;
     priority_weights := ∅;
     _start_time := time_time 0;
     clock := 1 |}.

(** [self.remember(item)] *)
Definition remember (self : QuantumAgent) (item : pyval) : QuantumAgent :=
  {| memory := memory self ++ [item];
     goal_history := goal_history self;
     task_queue := task_queue self;
     performance_log := performance_log self;
     learning_rate := learning_rate self;
     priority_weights := priority_weights self;
     _start_time := _start_time self;
     clock := clock self |}.

(** [self.recall(query)] *)
Definition recall (self : QuantumAgent) (query : string) : list pyval :=
  let query_lower := Str.lower query in
  List.filter (fun item => contains query_lower (Str.lower (py_str item)))
    (memory self).

(** [d[k]] on the [defaultdict]: a missing key is first set to 1.0. *)
Definition weight_get (k : string) (d : gmap string Q) : gmap string Q * Q :=
  match d !! k with
  | Some w => (d, w)
  | None => (<[k := 1%Q]> d, 1%Q)
  end.

(** [self.add_task(description, priority, metadata)]: [metadata or {}]. *)
Definition add_task (self : QuantumAgent) (description : string)
    (priority : Q) (metadata : option (gmap string pyval)) : QuantumAgent :=
  {| memory := memory self;
     goal_history := goal_history self;
     task_queue :=
       task_queue self
       ++ [mkTask description priority pending (time_time (clock self))
             (default ∅ metadata) None None None];
     performance_log := performance_log self;
     learning_rate := learning_rate self;
     priority_weights := priority_weights self;
     _start_time := _start_time self;
     clock := S (clock self) |}.

(** [self.execute_next_task()]: the result is the task picked, as its
    position in the queue and its value after the two assignments; the
    task is changed in the queue, where it lives. *)
Definition execute_next_task (self : QuantumAgent)
  : QuantumAgent * option (nat * Task) :=
  let pending :=
    List.filter (fun it => is_pending (status it.2))
      (enumerate_from 0 (task_queue self)) in
  match sort_reverse (fun it => priority it.2) pending with
  | [] => (self, None)
  | (i, task) :: _ =>
      let task' :=
        mkTask (description task) (priority task) in_progress
          (created_at task) (metadata task)
          (Some (time_time (clock self))) (completed_at task) (success task) in
      ({| memory := memory self;
          goal_history := goal_history self;
          task_queue := <[i := task']> (task_queue self);
          performance_log := performance_log self;
          learning_rate := learning_rate self;
          priority_weights := priority_weights self;
          _start_time := _start_time self;
          clock := S (clock self) |},
       Some (i, task'))
  end.


(** ** Categories *)

Lemma categorize_from_first (cats : list (string * list string))
    (text : string) :
  (categorize_from cats text = "general" /\
   Forall (fun c => any_in c.2 text = false) cats)
  \/
  (exists l1 c l2,
     cats = l1 ++ c :: l2 /\
     Forall (fun c' => any_in c'.2 text = false) l1 /\
     any_in c.2 text = true /\
     categorize_from cats text = c.1).
Proof.
  induction cats as [|[cat kws] cats IH]; simpl.
  - left. split; [reflexivity|constructor].
  - destruct (any_in kws text) eqn:E.
    + right. exists [], (cat, kws), cats. repeat split; [constructor|exact E].
    + destruct IH as [[Hg Hall]|(l1 & c & l2 & -> & Hall & Hc & Hr)].
      * left. split; [exact Hg|]. by constructor.
      * right. exists ((cat, kws) :: l1), c, l2.
        repeat split; try assumption. by constructor.
Qed.

(** X16. [_categorize_goal] returns the name of the first category, in
    the order quantum, security, learning, integration, deployment, one
    of whose keywords occurs in the text, and ['general'] exactly when
    no keyword of any category occurs in it. *)
Theorem categorize_goal_first_match (text : string) :
  ((_categorize_goal text = "general" /\
    Forall (fun c => any_in c.2 text = false) categories)
   \/
   (exists l1 c l2,
      categories = l1 ++ c :: l2 /\
      Forall (fun c' => any_in c'.2 text = false) l1 /\
      any_in c.2 text = true /\
      _categorize_goal text = c.1)) /\
  (_categorize_goal text = "general" <->
   forall c kw, c ∈ categories -> kw ∈ c.2 -> contains kw text = false).
Proof.
  split; [apply categorize_from_first|].
  split.
  - intros Hg c kw Hc Hkw.
    destruct (categorize_from_first categories text)
      as [[_ Hall]|(l1 & c' & l2 & Hcat & _ & _ & Hr)].
    + rewrite Forall_forall in Hall. specialize (Hall c Hc).
      unfold any_in in Hall.
      destruct (contains kw text) eqn:E; [|reflexivity].
      assert (Hex : existsb (fun kw => contains kw text) c.2 = true).
      { apply existsb_exists. exists kw. split; [by apply list_elem_of_In|exact E]. }
      congruence.
    + exfalso. unfold _categorize_goal in Hg. rewrite Hg in Hr.
      assert (Hin : c' ∈ categories).
      { rewrite Hcat. apply elem_of_app. right. left. }
      unfold categories in Hin.
      repeat (apply elem_of_cons in Hin as [->|Hin]; [discriminate Hr|]).
      inversion Hin.
  - intros Hno.
    destruct (categorize_from_first categories text)
      as [[Hg _]|(l1 & c & l2 & Hcat & _ & Hany & _)]; [exact Hg|].
    exfalso. unfold any_in in Hany.
    apply existsb_exists in Hany as (kw & Hkw & Hc).
    rewrite (Hno c kw) in Hc; [discriminate| |by apply list_elem_of_In].
    rewrite Hcat. apply elem_of_app. right. left.
Qed.

(** ** The memory *)

Lemma prefix_nil (s : string) : String.prefix "" s = true.
Proof. by destruct s. Qed.

Lemma contains_nil (s : string) : contains "" s = true.
Proof. destruct s; reflexivity. Qed.

Lemma filter_all {A} (f : A -> bool) (l : list A) :
  (forall x, f x = true) -> List.filter f l = l.
Proof.
  intros H. induction l as [|x l IH]; [reflexivity|].
  simpl. by rewrite H, IH.
Qed.

Lemma filter_sublist {A} (f : A -> bool) (l : list A) :
  List.filter f l `sublist_of` l.
Proof.
  induction l as [|x l IH]; simpl; [constructor|].
  destruct (f x); by constructor.
Qed.

(** X17. [recall] of the agent: the result is a part of the memory, in
    memory order; the empty query returns the whole memory; the query
    is read without regard to case; and an item that was remembered is
    found by every query that occurs in its lower-cased string form,
    after what was found before. *)
Theorem recall_memory (self : QuantumAgent) (query : string) (item : pyval) :
  recall self query `sublist_of` memory self /\
  recall self "" = memory self /\
  recall self (Str.lower query) = recall self query /\
  recall (remember self item) query
  = recall self query
    ++ (if contains (Str.lower query) (Str.lower (py_str item))
        then [item] else []).
Proof.
  split; [apply filter_sublist|]. split; [|split].
  - apply filter_all. intros x. apply contains_nil.
  - unfold recall. by rewrite lower_idempotent.
  - unfold recall, remember. simpl. rewrite List.filter_app. reflexivity.
Qed.

(** ** The task queue *)

Lemma elem_of_enumerate_from (l : list Task) :
  forall k j t,
    (j, t) ∈ enumerate_from k l <->
    exists n, j = (k + n)%nat /\ l !! n = Some t.
Proof.
  induction l as [|x l IH]; intros k j t; simpl.
  - split; [intros H; inversion H|]. intros (n & _ & Hn). by destruct n.
  - rewrite elem_of_cons, IH. split.
    + intros [Heq|(n & -> & Hn)].
      * injection Heq as -> ->. exists 0%nat. split; [lia|reflexivity].
      * exists (S n). split; [lia|exact Hn].
    + intros ([|n] & -> & Hn).
      * left. simpl in Hn. injection Hn as ->. f_equal. lia.
      * right. exists n. split; [lia|exact Hn].
Qed.

Lemma enumerate_from_sorted (l : list Task) :
  forall k,
    StronglySorted (fun a b : nat * Task => (a.1 < b.1)%nat)
      (enumerate_from k l).
Proof.
  induction l as [|x l IH]; intros k; simpl; constructor; [apply IH|].
  apply Forall_forall. intros [j t] Hin.
  apply elem_of_enumerate_from in Hin as (n & -> & _). simpl. lia.
Qed.

Lemma filter_strongly_sorted {A} (R : A -> A -> Prop) (f : A -> bool)
    (l : list A) :
  StronglySorted R l -> StronglySorted R (List.filter f l).
Proof.
  induction 1 as [|x l Hs IH Hall]; simpl; [constructor|].
  destruct (f x); [|exact IH]. constructor; [exact IH|].
  rewrite Forall_forall in *. intros y Hy. apply Hall.
  apply list_elem_of_In, filter_In in Hy as [Hy _]. by apply list_elem_of_In.
Qed.

Lemma filter_head_split {A} (f : A -> bool) (l : list A) (x : A)
    (r : list A) :
  List.filter f l = x :: r ->
  exists l1 l2, l = l1 ++ x :: l2 /\ Forall (fun y => f y = false) l1.
Proof.
  induction l as [|y l IH]; simpl; [discriminate|].
  destruct (f y) eqn:E.
  - intros H. injection H as -> _. exists [], l. split; [reflexivity|constructor].
  - intros H. destruct (IH H) as (l1 & l2 & -> & Hall).
    exists (y :: l1), l2. split; [reflexivity|]. by constructor.
Qed.

(** The head of the descending stable sort: a largest element, and the
    first of the list among those of its key. *)
Lemma sort_reverse_head {A} (key : A -> Q) (l : list A) (x : A)
    (rest : list A) :
  sort_reverse key l = x :: rest ->
  (forall y, y ∈ l -> (key y <= key x)%Q) /\
  exists l1 l2,
    l = l1 ++ x :: l2 /\ Forall (fun y => ~ (key y == key x)%Q) l1.
Proof.
  intros Hsort.
  pose proof (sort_reverse_perm key l) as Hp.
  pose proof (sort_reverse_sorted key l) as Hs.
  pose proof (sort_reverse_stable key (key x) l) as Hst.
  rewrite Hsort in Hp, Hs, Hst. split.
  - intros y Hy. rewrite <- Hp in Hy.
    apply elem_of_cons in Hy as [->|Hy]; [apply Qle_refl|].
    apply StronglySorted_inv in Hs as [_ Hall].
    rewrite Forall_forall in Hall. by apply Hall.
  - unfold with_key in Hst. simpl in Hst.
    rewrite (proj2 (Qeq_bool_iff (key x) (key x)) (Qeq_refl _)) in Hst.
    symmetry in Hst.
    destruct (filter_head_split _ _ _ _ Hst) as (l1 & l2 & Hl & Hall).
    exists l1, l2. split; [exact Hl|].
    eapply Forall_impl; [exact Hall|]. intros y Hy Heq.
    apply Qeq_bool_iff in Heq. simpl in Hy. congruence.
Qed.

(** A task in progress: [task] after lines 95-96. *)
Definition started (now : Q) (task : Task) : Task :=
  mkTask (description task) (priority task) in_progress (created_at task)
    (metadata task) (Some now) (completed_at task) (success task).

Lemma execute_next_task_cases (self : QuantumAgent) :
  (execute_next_task self = (self, None) /\
   forall t, t ∈ task_queue self -> status t <> pending)
  \/
  (exists i task,
     task_queue self !! i = Some task /\ status task = pending /\
     (forall j t, task_queue self !! j = Some t -> status t = pending ->
        (priority t <= priority task)%Q /\
        ((priority t == priority task)%Q -> (i <= j)%nat)) /\
     execute_next_task self
     = ({| memory := memory self;
           goal_history := goal_history self;
           task_queue :=
             <[i := started (time_time (clock self)) task]> (task_queue self);
           performance_log := performance_log self;
           learning_rate := learning_rate self;
           priority_weights := priority_weights self;
           _start_time := _start_time self;
           clock := S (clock self) |},
        Some (i, started (time_time (clock self)) task))).
Proof.
  unfold execute_next_task.
  set (pend := List.filter (fun it : nat * Task => is_pending (status it.2))
                 (enumerate_from 0 (task_queue self))).
  assert (Hpend : forall j t, (j, t) ∈ pend <->
                    task_queue self !! j = Some t /\ status t = pending).
  { intros j t. subst pend. rewrite list_elem_of_In, filter_In.
    rewrite <- list_elem_of_In, elem_of_enumerate_from. simpl. split.
    - intros [(n & -> & Hn) Hs]. split; [exact Hn|]. by destruct (status t).
    - intros [Hj Hs]. split; [exists j; auto|]. by rewrite Hs. }
  destruct (sort_reverse (fun it : nat * Task => priority it.2) pend)
    as [|[i task] rest] eqn:Hsort.
  - left. split; [reflexivity|]. intros t Ht Hs.
    apply list_elem_of_lookup in Ht as [j Hj].
    assert (Hin : (j, t) ∈ pend) by (by apply Hpend).
    rewrite <- (sort_reverse_perm (fun it : nat * Task => priority it.2)) in Hin.
    rewrite Hsort in Hin. inversion Hin.
  - right. exists i, task.
    destruct (sort_reverse_head _ _ _ _ Hsort) as (Hmax & l1 & l2 & Hl & Hfirst).
    assert (Hin : (i, task) ∈ pend).
    { rewrite Hl. apply elem_of_app. right. left. }
    apply Hpend in Hin as [Hi Hs]. repeat split; try assumption.
    + apply (Hmax (j, t)). by apply Hpend.
    + intros Heq.
      assert (Hjt : (j, t) ∈ pend) by (by apply Hpend).
      rewrite Hl in Hjt. apply elem_of_app in Hjt as [Hjt|Hjt].
      * rewrite Forall_forall in Hfirst. exfalso.
        exact (Hfirst _ Hjt Heq).
      * apply elem_of_cons in Hjt as [Heq'|Hjt]; [injection Heq' as -> _; lia|].
        assert (Hsorted : StronglySorted (fun a b : nat * Task => (a.1 < b.1)%nat)
                            pend).
        { apply filter_strongly_sorted, enumerate_from_sorted. }
        rewrite Hl in Hsorted.
        apply StronglySorted_app_1_r, StronglySorted_inv in Hsorted
          as [_ Hall].
        rewrite Forall_forall in Hall. specialize (Hall _ Hjt). simpl in Hall.
        lia.
Qed.


(** X21. A task added while nothing is pending is the next one
    executed: [execute_next_task] returns it, at the end of the queue,
    in progress, with the description, priority and metadata it was
    added with. *)
Theorem add_task_then_execute (self : QuantumAgent) (d : string) (p : Q)
    (m : option (gmap string pyval)) :
  (forall t, t ∈ task_queue self -> status t <> pending) ->
  exists task',
    (execute_next_task (add_task self d p m)).2
    = Some (length (task_queue self), task') /\
    description task' = d /\ priority task' = p /\
    metadata task' = default ∅ m /\ status task' = in_progress /\
    created_at task' = time_time (clock self) /\
    started_at task' = Some (time_time (S (clock self))).
Proof.
  intros Hnone.
  destruct (execute_next_task_cases (add_task self d p m))
    as [[_ Hno]|(i & task & Hi & Hs & _ & ->)].
  - exfalso. apply (Hno (mkTask d p pending (time_time (clock self))
                           (default ∅ m) None None None)); [|reflexivity].
    simpl. apply elem_of_app. right. left.
  - simpl in *.
    assert (Hidx : i = length (task_queue self)).
    { destruct (decide (i < length (task_queue self))%nat) as [Hlt|Hge].
      - rewrite lookup_app_l in Hi by exact Hlt. exfalso.
        apply (Hnone task); [by eapply list_elem_of_lookup_2|exact Hs].
      - apply lookup_lt_Some in Hi. rewrite length_app in Hi. simpl in Hi. lia. }
    subst i. rewrite list_lookup_middle in Hi by reflexivity.
    injection Hi as <-. eexists. split; [reflexivity|]. by repeat split.
Qed.

End Methods.

End Agent.

(** ** Instances of the further properties *)

Lemma scenario1_reachable : reachable tick_time tag_id str_basic scenario1.
Proof. apply run_calls_reachable. constructor. Qed.

Lemma scenario3_reachable : reachable tick_time tag_id str_basic scenario3.
Proof. apply run_calls_reachable. constructor. Qed.

(** The order of the two lists can differ: three thoughts at capacity 2,
    the third the least important. *)
Definition out_of_order : InfiniteMind :=
  run_calls tick_time tag_id str_basic (__init__ tick_time 2)
    [(PStr "c", 5%Q); (PStr "a", 5%Q); (PStr "c", 1%Q)].

Example out_of_order_lists :
  map Entry.content (thoughts out_of_order) = ["c"; "a"]
  /\ raw_thoughts out_of_order = ["a"; "c"].
Proof. split; vm_compute; reflexivity. Qed.

Lemma reachable_in_sync_witness :
  Permutation (map Entry.content (thoughts scenario1)) (raw_thoughts scenario1).
Proof.
  exact (proj1 (reachable_in_sync tick_time tag_id str_basic scenario1
                  scenario1_reachable)).
Defined.

Lemma reachable_adjacency_symmetric_witness :
  count_occ String.string_dec
    (default [] (associations scenario1 !! "the cat sat")) "the cat ran"
  = count_occ String.string_dec
      (default [] (associations scenario1 !! "the cat ran")) "the cat sat".
Proof.
  exact (reachable_adjacency_symmetric tick_time tag_id str_basic scenario1
           "the cat sat" "the cat ran" scenario1_reachable).
Defined.

Lemma new_entry_eviction_witness :
  thoughts (expand_item tick_time tag_id str_basic (1 # 2) scenario1
              (PStr "a bird"))
  = thoughts scenario1.
Proof.
  refine (proj1 (new_entry_eviction tick_time tag_id str_basic scenario1
                   (PStr "a bird") (1 # 2) _) _).
  - vm_compute. reflexivity.
  - assert (H : map Entry.importance (thoughts scenario1) = [1%Q; 5%Q])
      by (vm_compute; reflexivity).
    destruct (thoughts scenario1) as [|e1 [|e2 [|e3 l]]]; try discriminate H.
    injection H as H1 H2. repeat constructor; [rewrite H1|rewrite H2]; lra.
Defined.

Lemma detect_novelty_le_1_witness :
  (detect_novelty scenario3 "red apple pie" <= 1)%Q.
Proof.
  apply detect_novelty_le_1.
  assert (H : map Entry.importance (thoughts scenario3) = [1%Q])
    by (vm_compute; reflexivity).
  destruct (thoughts scenario3) as [|e1 [|e2 l]]; try discriminate H.
  injection H as H1. repeat constructor. rewrite H1. lra.
Defined.

Lemma reachable_well_formed_witness :
  exists k, k ∈ dom (associations scenario1) /\ "#the cat sat" = tag_id k.
Proof.
  destruct (reachable_well_formed tick_time tag_id str_basic scenario1
              (Entry.mk "the cat ran" 1 (tick_time 2) (tag_id "the cat ran") 0
                 ["#the cat sat"])
              scenario1_reachable) as (_ & _ & _ & Hids).
  - vm_compute. left.
  - apply Hids. left.
Defined.

Lemma store_size_witness :
  length (thoughts
    (run_items tick_time tag_id str_basic (__init__ tick_time 2)
       (item_stream scenario1_calls)))
  = Nat.min (length (item_stream scenario1_calls)) (Z.to_nat 2).
Proof. apply store_size. lia. Defined.

Lemma summary_counts_witness :
  Nat.Even (total_associations (get_knowledge_summary scenario1)).
Proof.
  exact (proj1 (proj2 (summary_counts tick_time tag_id str_basic scenario1
                         scenario1_reachable))).
Defined.



Lemma add_task_then_execute_witness :
  exists task',
    (Agent.execute_next_task tick_time
       (Agent.add_task tick_time (Agent.__init__ tick_time None)
          "deploy the model" 2 None)).2
    = Some (0%nat, task') /\
    Agent.description task' = "deploy the model".
Proof.
  destruct (Agent.add_task_then_execute tick_time
              (Agent.__init__ tick_time None) "deploy the model" 2 None)
    as (task' & Hex & Hd & _).
  - intros t Ht. inversion Ht.
  - exists task'. split; assumption.
Defined.

(** * The methods that compare floats, over binary64

    [recall], [_evict_least_important], [prioritize_goals] and
    [execute_next_task] sort or scan by float keys. Here a Python
    [float] is a primitive binary64 float: products are rounded as the
    code rounds them, and every comparison with a NaN is false. *)

Module Binary64.

Import Stdlib.Floats.PrimFloat.
Import Stdlib.Floats.SpecFloat.
Import Stdlib.Floats.FloatOps.

(** ** The order of the floats that are not NaN *)

(** A float that is not NaN, as a triple of integers ordered
    lexicographically: its class (-2 for -inf, -1 for a negative number,
    0 for a zero of either sign, 1 for a positive number, 2 for +inf),
    then its exponent and its mantissa, both negated below zero. *)
Definition rank (f : spec_float) : Z * Z * Z :=
  match f with
  | S754_zero _ => (0, 0, 0)%Z
  | S754_infinity s => (if s then -2 else 2, 0, 0)%Z
  | S754_nan => (0, 0, 0)%Z
  | S754_finite s m e => if s then (-1, - e, Zneg m)%Z else (1, e, Zpos m)%Z
  end.

Definition lex (a b : Z * Z * Z) : comparison :=
  match (a.1.1 ?= b.1.1)%Z with
  | Eq => match (a.1.2 ?= b.1.2)%Z with
          | Eq => (a.2 ?= b.2)%Z
          | c => c
          end
  | c => c
  end.

Definition lt3 (a b : Z * Z * Z) : Prop :=
  (a.1.1 < b.1.1 \/
   a.1.1 = b.1.1 /\ (a.1.2 < b.1.2 \/ a.1.2 = b.1.2 /\ a.2 < b.2))%Z.

Lemma lex_spec (a b : Z * Z * Z) :
  match lex a b with
  | Lt => lt3 a b
  | Eq => a = b
  | Gt => lt3 b a
  end.
Proof.
  destruct a as [[a1 a2] a3], b as [[b1 b2] b3]. unfold lex, lt3. simpl.
  destruct (Z.compare_spec a1 b1) as [-> | H1 | H1]; [|lia|lia].
  destruct (Z.compare_spec a2 b2) as [-> | H2 | H2]; [|lia|lia].
  destruct (Z.compare_spec a3 b3) as [-> | H3 | H3]; [reflexivity|lia|lia].
Qed.

Lemma lt3_irrefl (a : Z * Z * Z) : ~ lt3 a a.
Proof. destruct a as [[a1 a2] a3]. unfold lt3. simpl. lia. Qed.

Lemma lt3_trans (a b c : Z * Z * Z) : lt3 a b -> lt3 b c -> lt3 a c.
Proof.
  destruct a as [[a1 a2] a3], b as [[b1 b2] b3], c as [[c1 c2] c3].
  unfold lt3. simpl. lia.
Qed.

Lemma lt3_total (a b : Z * Z * Z) : lt3 a b \/ a = b \/ lt3 b a.
Proof.
  pose proof (lex_spec a b) as H. destruct (lex a b); auto.
Qed.

Lemma SFcompare_lex (a b : spec_float) :
  a <> S754_nan -> b <> S754_nan ->
  SFcompare a b = Some (lex (rank a) (rank b)).
Proof.
  intros Ha Hb.
  destruct a as [sa|sa| |sa ma ea], b as [sb|sb| |sb mb eb];
    try congruence; try (destruct sa); try (destruct sb); try reflexivity.
  unfold lex. simpl. rewrite Z.compare_opp, (Z.compare_antisym ea eb).
  destruct (ea ?= eb)%Z; reflexivity.
Qed.

Lemma SFcompare_nan_l (b : spec_float) : SFcompare S754_nan b = None.
Proof. reflexivity. Qed.

Lemma SFcompare_nan_r (a : spec_float) : SFcompare a S754_nan = None.
Proof. by destruct a. Qed.

(** The triple of a float. *)
Definition key (x : float) : Z * Z * Z := rank (Prim2SF x).

Lemma lex_refl (a : Z * Z * Z) : lex a a = Eq.
Proof.
  pose proof (lex_spec a a) as H.
  destruct (lex a a); [reflexivity| |]; exfalso; exact (lt3_irrefl _ H).
Qed.

Lemma spec_float_nan_dec (f : spec_float) : {f = S754_nan} + {f <> S754_nan}.
Proof. destruct f; (by left) || (by right). Qed.

Lemma is_nan_false (x : float) :
  is_nan x = false <-> Prim2SF x <> S754_nan.
Proof.
  unfold is_nan. rewrite FloatAxioms.eqb_spec. unfold SFeqb.
  destruct (spec_float_nan_dec (Prim2SF x)) as [E|E].
  - rewrite E. simpl. split; [discriminate|congruence].
  - rewrite (SFcompare_lex _ _ E E), lex_refl. simpl. split; auto.
Qed.

Lemma compare_cases (x y : float) :
  (is_nan x = false /\ is_nan y = false /\
   SFcompare (Prim2SF x) (Prim2SF y) = Some (lex (key x) (key y)))
  \/
  ((is_nan x = true \/ is_nan y = true) /\
   SFcompare (Prim2SF x) (Prim2SF y) = None).
Proof.
  destruct (is_nan x) eqn:Ex.
  - right. split; [by left|].
    assert (H : Prim2SF x = S754_nan).
    { destruct (Prim2SF x) eqn:E; [| |reflexivity|];
        exfalso; assert (Hn : is_nan x = false)
          by (apply is_nan_false; congruence); congruence. }
    by rewrite H.
  - destruct (is_nan y) eqn:Ey.
    + right. split; [by right|].
      assert (H : Prim2SF y = S754_nan).
      { destruct (Prim2SF y) eqn:E; [| |reflexivity|];
          exfalso; assert (Hn : is_nan y = false)
            by (apply is_nan_false; congruence); congruence. }
      rewrite H. apply SFcompare_nan_r.
    + left. split; [reflexivity|]. split; [reflexivity|].
      apply SFcompare_lex; by apply is_nan_false.
Qed.

Lemma ltb_lt3 (x y : float) :
  (x <? y)%float = true <->
  is_nan x = false /\ is_nan y = false /\ lt3 (key x) (key y).
Proof.
  rewrite FloatAxioms.ltb_spec. unfold SFltb.
  destruct (compare_cases x y) as [(Hx & Hy & ->)|([Hn|Hn] & ->)].
  - pose proof (lex_spec (key x) (key y)) as Hl.
    destruct (lex (key x) (key y)); split; try discriminate; auto.
    + intros (_ & _ & H). rewrite Hl in H. by apply lt3_irrefl in H.
    + intros (_ & _ & H). exfalso. exact (lt3_irrefl _ (lt3_trans _ _ _ H Hl)).
  - split; [discriminate|]. intros (? & ? & _). congruence.
  - split; [discriminate|]. intros (? & ? & _). congruence.
Qed.

Lemma leb_lt3 (x y : float) :
  (x <=? y)%float = true <->
  is_nan x = false /\ is_nan y = false /\ ~ lt3 (key y) (key x).
Proof.
  rewrite FloatAxioms.leb_spec. unfold SFleb.
  destruct (compare_cases x y) as [(Hx & Hy & ->)|([Hn|Hn] & ->)].
  - pose proof (lex_spec (key x) (key y)) as Hl.
    destruct (lex (key x) (key y)); split; try discriminate; auto.
    + intros _. repeat split; auto. rewrite Hl. apply lt3_irrefl.
    + intros _. repeat split; auto. intros H.
      exact (lt3_irrefl _ (lt3_trans _ _ _ H Hl)).
    + intros (_ & _ & H). contradiction.
  - split; [discriminate|]. intros (? & ? & _). congruence.
  - split; [discriminate|]. intros (? & ? & _). congruence.
Qed.

Lemma eqb_key (x y : float) :
  (x =? y)%float = true <->
  is_nan x = false /\ is_nan y = false /\ key x = key y.
Proof.
  rewrite FloatAxioms.eqb_spec. unfold SFeqb.
  destruct (compare_cases x y) as [(Hx & Hy & ->)|([Hn|Hn] & ->)].
  - pose proof (lex_spec (key x) (key y)) as Hl.
    destruct (lex (key x) (key y)); split; try discriminate; auto.
    + intros (_ & _ & H). rewrite H in Hl. by apply lt3_irrefl in Hl.
    + intros (_ & _ & H). rewrite H in Hl. by apply lt3_irrefl in Hl.
  - split; [discriminate|]. intros (? & ? & _). congruence.
  - split; [discriminate|]. intros (? & ? & _). congruence.
Qed.

(** The facts the sort and the scan need. *)
Lemma ltb_trans (x y z : float) :
  (x <? y)%float = true -> (y <? z)%float = true -> (x <? z)%float = true.
Proof.
  rewrite !ltb_lt3. intros (Hx & _ & H1) (_ & Hz & H2).
  repeat split; auto. eapply lt3_trans; eassumption.
Qed.

Lemma ltb_leb (x y : float) :
  (x <? y)%float = true -> (x <=? y)%float = true.
Proof.
  rewrite ltb_lt3, leb_lt3. intros (Hx & Hy & H). repeat split; auto.
  intros H'. exact (lt3_irrefl _ (lt3_trans _ _ _ H H')).
Qed.

Lemma not_ltb_leb (x y : float) :
  is_nan x = false -> is_nan y = false ->
  (x <? y)%float = false -> (y <=? x)%float = true.
Proof.
  intros Hx Hy H. apply leb_lt3. repeat split; auto. intros Hlt.
  assert (Ht : (x <? y)%float = true) by (apply ltb_lt3; auto). congruence.
Qed.

Lemma leb_trans (x y z : float) :
  (x <=? y)%float = true -> (y <=? z)%float = true -> (x <=? z)%float = true.
Proof.
  rewrite !leb_lt3. intros (Hx & _ & H1) (_ & Hz & H2).
  repeat split; auto. intros H.
  destruct (lt3_total (key y) (key z)) as [Hyz|[Hyz|Hyz]]; [| |done].
  - apply H1. eapply lt3_trans; eassumption.
  - apply H1. by rewrite Hyz.
Qed.

Lemma ltb_leb_trans (x y z : float) :
  (x <? y)%float = true -> (y <=? z)%float = true -> (x <? z)%float = true.
Proof.
  rewrite !ltb_lt3, leb_lt3. intros (Hx & _ & H1) (_ & Hz & H2).
  repeat split; auto.
  destruct (lt3_total (key y) (key z)) as [Hyz|[Hyz|Hyz]]; [| |done].
  - eapply lt3_trans; eassumption.
  - by rewrite <- Hyz.
Qed.

Lemma eqb_not_ltb (x y r : float) :
  (x =? r)%float = true -> (y =? r)%float = true -> (x <? y)%float = false.
Proof.
  rewrite !eqb_key. intros (Hx & _ & H1) (Hy & _ & H2).
  destruct (x <? y)%float eqn:E; [|reflexivity].
  apply ltb_lt3 in E as (_ & _ & E). rewrite H1, H2 in E.
  by apply lt3_irrefl in E.
Qed.

Lemma eqb_refl_ok (x : float) : is_nan x = false -> (x =? x)%float = true.
Proof. intros H. apply eqb_key. auto. Qed.

(** ** [list.sort] and [min] on float keys *)

(** [l.sort(key=key, reverse=True)] on float keys: a stable sort, largest
    key first. On keys without a NaN, which [<] orders, this is the list
    every stable sort returns. With a NaN among the keys the order that
    [list.sort] leaves depends on how it merges its runs, so the
    theorems on the order of a result assume that no key is a NaN. *)
Fixpoint insert_desc {A} (key : A -> float) (x : A) (l : list A) : list A :=
  match l with
  | [] => [x]
  | y :: l' =>
      if (key x <? key y)%float then y :: insert_desc key x l' else x :: l
  end.

Definition sort_reverse {A} (key : A -> float) (l : list A) : list A :=
  foldr (insert_desc key) [] l.

(** [min(range(len(l)), key=lambda i: key(l[i]))] on float keys: a later
    index replaces the best one only when [key(later) < key(best)]
    holds, which is false whenever one of the two is a NaN. *)
Fixpoint min_scan {A} (key : A -> float) (l : list A) (i best : nat)
    (best_key : float) : nat :=
  match l with
  | [] => best
  | x :: l' =>
      if (key x <? best_key)%float then min_scan key l' (S i) i (key x)
      else min_scan key l' (S i) best best_key
  end.

Definition min_index {A} (key : A -> float) (l : list A) : option nat :=
  match l with
  | [] => None
  | x :: l' => Some (min_scan key l' 1 0 (key x))
  end.

(** Largest key first. *)
Definition desc {A} (key : A -> float) (a b : A) : Prop :=
  (key b <=? key a)%float = true.

(** No key is a NaN. *)
Definition no_nan {A} (key : A -> float) (l : list A) : Prop :=
  Forall (fun x => is_nan (key x) = false) l.

Lemma insert_desc_perm_f {A} (key : A -> float) (x : A) (l : list A) :
  Permutation (insert_desc key x l) (x :: l).
Proof.
  induction l as [|y l IH]; simpl; [reflexivity|].
  destruct (key x <? key y)%float; [|reflexivity].
  rewrite IH. apply perm_swap.
Qed.

Lemma sort_reverse_perm_f {A} (key : A -> float) (l : list A) :
  Permutation (sort_reverse key l) l.
Proof.
  induction l as [|x l IH]; simpl; [reflexivity|].
  rewrite insert_desc_perm_f. by constructor.
Qed.

Lemma insert_desc_sorted_f {A} (key : A -> float) (x : A) (l : list A) :
  no_nan key (x :: l) ->
  StronglySorted (desc key) l -> StronglySorted (desc key) (insert_desc key x l).
Proof.
  intros Hnan Hs. apply Forall_cons in Hnan as [Hx Hnan].
  induction Hs as [|y l Hs IH Hall]; simpl.
  - constructor; constructor.
  - apply Forall_cons in Hnan as [Hy Hnan].
    destruct (key x <? key y)%float eqn:E.
    + constructor; [by apply IH|].
      rewrite insert_desc_perm_f. constructor; [|exact Hall].
      unfold desc. by apply ltb_leb.
    + constructor; [by constructor|].
      assert (Hyx : desc key x y) by (by apply not_ltb_leb).
      constructor; [exact Hyx|].
      eapply Forall_impl; [exact Hall|].
      intros z Hz. unfold desc in *. eapply leb_trans; eassumption.
Qed.

Lemma sort_reverse_sorted_f {A} (key : A -> float) (l : list A) :
  no_nan key l -> StronglySorted (desc key) (sort_reverse key l).
Proof.
  induction l as [|x l IH]; intros Hnan; simpl; [constructor|].
  apply insert_desc_sorted_f.
  - apply Forall_cons in Hnan as [Hx Hnan]. constructor; [exact Hx|].
    unfold no_nan. by rewrite sort_reverse_perm_f.
  - apply IH. by apply Forall_cons in Hnan as [_ ?].
Qed.

(** The elements whose key equals [r], in the order of the list. *)
Definition with_key {A} (key : A -> float) (r : float) (l : list A) : list A :=
  List.filter (fun x => (key x =? r)%float) l.

Lemma insert_desc_stable_f {A} (key : A -> float) (r : float) (x : A)
    (l : list A) :
  with_key key r (insert_desc key x l) = with_key key r (x :: l).
Proof.
  induction l as [|y l IH]; [reflexivity|].
  simpl. destruct (key x <? key y)%float eqn:E; [|reflexivity].
  unfold with_key in *. simpl in *. rewrite IH.
  destruct (key x =? r)%float eqn:Ex, (key y =? r)%float eqn:Ey;
    try reflexivity.
  rewrite (eqb_not_ltb _ _ _ Ex Ey) in E. discriminate.
Qed.

Lemma sort_reverse_stable_f {A} (key : A -> float) (r : float) (l : list A) :
  with_key key r (sort_reverse key l) = with_key key r l.
Proof.
  induction l as [|x l IH]; simpl; [reflexivity|].
  rewrite insert_desc_stable_f. unfold with_key in *. simpl. by rewrite IH.
Qed.

(** The result of the scan of [min] when no key is a NaN. *)
Definition first_min {A} (key : A -> float) (l : list A) (r : nat) : Prop :=
  exists l1 e l2,
    l = l1 ++ e :: l2 /\ length l1 = r /\
    Forall (fun x => (key e <? key x)%float = true) l1 /\
    Forall (fun x => (key e <=? key x)%float = true) l2.

Lemma min_scan_first_min_f {A} (key : A -> float) (l : list A) :
  forall l1 e l2,
    no_nan key (l1 ++ e :: l2 ++ l) ->
    Forall (fun x => (key e <? key x)%float = true) l1 ->
    Forall (fun x => (key e <=? key x)%float = true) l2 ->
    first_min key (l1 ++ e :: l2 ++ l)
      (min_scan key l (length (l1 ++ e :: l2)) (length l1) (key e)).
Proof.
  induction l as [|x l IH]; intros l1 e l2 Hnan H1 H2; simpl.
  - exists l1, e, l2. rewrite app_nil_r. auto.
  - assert (He : is_nan (key e) = false /\ is_nan (key x) = false).
    { unfold no_nan in Hnan. rewrite Forall_forall in Hnan.
      split; apply Hnan; apply elem_of_app; right.
      - left.
      - right. apply elem_of_app. right. left. }
    destruct He as [He Hx].
    destruct (key x <? key e)%float eqn:E.
    + specialize (IH (l1 ++ e :: l2) x []).
      replace (l1 ++ e :: l2 ++ x :: l) with ((l1 ++ e :: l2) ++ x :: [] ++ l)
        in * by (rewrite <- app_assoc; reflexivity).
      replace (S (length (l1 ++ e :: l2)))
        with (length ((l1 ++ e :: l2) ++ [x]))
        by (rewrite !length_app; simpl; lia).
      apply IH; [exact Hnan| |constructor].
      apply Forall_app. split.
      * eapply Forall_impl; [exact H1|]. intros y Hy. simpl in Hy.
        eapply ltb_trans; eassumption.
      * constructor; [exact E|].
        eapply Forall_impl; [exact H2|]. intros y Hy. simpl in Hy.
        eapply ltb_leb_trans; eassumption.
    + specialize (IH l1 e (l2 ++ [x])).
      replace (l1 ++ e :: l2 ++ x :: l) with (l1 ++ e :: (l2 ++ [x]) ++ l)
        in * by (rewrite <- (app_assoc l2); reflexivity).
      replace (S (length (l1 ++ e :: l2)))
        with (length (l1 ++ e :: l2 ++ [x]))
        by (rewrite !length_app; simpl; rewrite length_app; simpl; lia).
      apply IH; [exact Hnan|exact H1|].
      apply Forall_app. split; [exact H2|].
      constructor; [by apply not_ltb_leb|constructor].
Qed.

Lemma min_index_first_min_f {A} (key : A -> float) (l : list A) :
  l <> [] -> no_nan key l ->
  exists r, min_index key l = Some r /\ first_min key l r.
Proof.
  destruct l as [|x l]; [congruence|]. intros _ Hnan.
  eexists. split; [reflexivity|].
  exact (min_scan_first_min_f key l [] x [] Hnan (Forall_nil_2 _) (Forall_nil_2 _)).
Qed.

(** A NaN is neither below nor above anything: a list of two keys or
    more that holds one is not sorted, in whatever order it is. *)
Lemma sorted_no_nan_f {A} (key : A -> float) (l : list A) :
  (2 <= length l)%nat -> StronglySorted (desc key) l -> no_nan key l.
Proof.
  intros Hlen Hs. apply Forall_forall. intros x Hx.
  apply list_elem_of_split in Hx as (l1 & l2 & ->).
  destruct l2 as [|y l2].
  - destruct l1 as [|y l1]; [simpl in Hlen; lia|].
    assert (Hd : desc key y x).
    { apply (StronglySorted_app_1_elem_of _ (y :: l1) [x]); [exact Hs|left|left]. }
    unfold desc in Hd. by apply leb_lt3 in Hd as (? & _ & _).
  - assert (Hd : desc key x y).
    { apply StronglySorted_app_1_r, StronglySorted_inv in Hs as [_ Hall].
      by apply Forall_inv in Hall. }
    unfold desc in Hd. by apply leb_lt3 in Hd as (_ & ? & _).
Qed.

(** Whatever the keys are, the scan returns a position of the list. *)
Lemma min_scan_bound {A} (key : A -> float) (l : list A) :
  forall i best bk,
    (best < i)%nat -> (min_scan key l i best bk < i + length l)%nat.
Proof.
  induction l as [|x l IH]; intros i best bk Hb; simpl; [lia|].
  destruct (key x <? bk)%float.
  - specialize (IH (S i) i (key x)). lia.
  - specialize (IH (S i) best bk). lia.
Qed.

(** ** The store with float importances *)

Module Entry.
Record t : Type := mk {
  content : string;
  importance : float;
  timestamp : float;
  id : string;
  depth : Z;
  associations : list string
}.
End Entry.

Module Scored.
Record t : Type := mk {
  thought : Entry.t;
  relevance : float
}.
End Scored.

Module Evolution.
Record t : Type := mk {
  original : string;
  evolved : string;
  depth : Z;
  timestamp : float
}.
End Evolution.

Record InfiniteMind : Type := mkMind {
  thoughts : list Entry.t;
  raw_thoughts : list string;
  associations : gmap string (list string);
  importance_scores : gmap string float;
  thought_frequency : gmap string nat;
  evolution_history : list Evolution.t;
  capacity : Z;
  _creation_time : float;
  clock : nat
}.

(** [float(n)] for a count, as [overlap * importance] converts its [int]:
    the nearest float, ties to even. *)
Definition float_of_nat (n : nat) : float :=
  SF2Prim (binary_normalize prec emax (Z.of_nat n) 0 false).

(** [self._evict_least_important()] *)
Definition _evict_least_important (self : InfiniteMind) : InfiniteMind :=
  match min_index Entry.importance (thoughts self) with
  | None => self
  | Some min_idx =>
      match thoughts self !! min_idx with
      | None => self
      | Some evicted =>
          {| thoughts := delete min_idx (thoughts self);
             raw_thoughts :=
               if decide (Entry.content evicted ∈ raw_thoughts self)
               then remove_first (Entry.content evicted) (raw_thoughts self)
               else raw_thoughts self;
             associations := associations self;
             importance_scores := importance_scores self;
             thought_frequency := thought_frequency self;
             evolution_history := evolution_history self;
             capacity := capacity self;
             _creation_time := _creation_time self;
             clock := clock self |}
      end
  end.

(** The loop of [recall]. *)
Definition score_step (query_words : gset string) (scored : list Scored.t)
    (thought : Entry.t) : list Scored.t :=
  let thought_words := word_set (Entry.content thought) in
  let overlap := size (query_words ∩ thought_words) in
  if (0 <? overlap)%nat
  then scored ++ [Scored.mk thought
                    (float_of_nat overlap * Entry.importance thought)%float]
  else scored.

(** [self.recall(query, top_k)] *)
Definition recall (self : InfiniteMind) (query : string) (top_k : Z)
  : list Scored.t :=
  let query_words := word_set query in
  let scored := fold_left (score_step query_words) (thoughts self) [] in
  slice_to (sort_reverse Scored.relevance scored) top_k.

(** ** Eviction *)

Lemma evict_empty_f (self : InfiniteMind) :
  thoughts self = [] -> _evict_least_important self = self.
Proof.
  intros H. unfold _evict_least_important. rewrite H. reflexivity.
Qed.

(** C3, as the code has it. On an empty store eviction changes nothing.
    On a non-empty store in which no importance is a NaN, the entry that
    goes is the first one, in store order, whose importance is the
    minimum over all entries: every entry before it is strictly more
    important, every entry after it at least as important; the first
    occurrence of its content is taken out of [raw_thoughts]. *)
Theorem evict_first_minimum_no_nan (self : InfiniteMind) :
  (thoughts self = [] -> _evict_least_important self = self) /\
  (thoughts self <> [] ->
   Forall (fun e => is_nan (Entry.importance e) = false) (thoughts self) ->
   exists before evicted after,
     thoughts self = before ++ evicted :: after /\
     Forall (fun e => (Entry.importance evicted <? Entry.importance e)%float
                      = true) before /\
     Forall (fun e => (Entry.importance evicted <=? Entry.importance e)%float
                      = true) after /\
     thoughts (_evict_least_important self) = before ++ after /\
     ((Entry.content evicted ∉ raw_thoughts self) /\
       raw_thoughts (_evict_least_important self) = raw_thoughts self
      \/
      exists r1 r2,
        raw_thoughts self = r1 ++ Entry.content evicted :: r2 /\
        (Entry.content evicted ∉ r1) /\
        raw_thoughts (_evict_least_important self) = r1 ++ r2)).
Proof.
  split; [apply evict_empty_f|].
  intros Hne Hnan.
  destruct (min_index_first_min_f Entry.importance (thoughts self) Hne Hnan)
    as (r & Hidx & l1 & e & l2 & Hl & Hlen & H1 & H2).
  exists l1, e, l2. split; [exact Hl|]. split; [exact H1|]. split; [exact H2|].
  unfold _evict_least_important. rewrite Hidx, Hl.
  rewrite (list_lookup_middle l1 l2 e r) by congruence.
  subst r. rewrite delete_middle. simpl. split; [reflexivity|].
  destruct (decide (Entry.content e ∈ raw_thoughts self)) as [Hin|Hnot].
  - right. destruct (remove_first_present _ _ Hin) as (r1 & r2 & Hr & Hn & Hrem).
    exists r1, r2. auto.
  - left. auto.
Qed.

(** ** Recall *)

(** [len(query_words & thought_words)] *)
Definition overlap_count (query_words : gset string) (t : Entry.t) : nat :=
  size (query_words ∩ word_set (Entry.content t)).

(** The pair [recall] makes of an entry that matches. *)
Definition score (query_words : gset string) (t : Entry.t) : Scored.t :=
  Scored.mk t (float_of_nat (overlap_count query_words t)
               * Entry.importance t)%float.

(** The entries that share a word with the query, in store order. *)
Definition matching (query_words : gset string) (l : list Entry.t)
  : list Entry.t :=
  List.filter (fun t => (0 <? overlap_count query_words t)%nat) l.

(** The matches of a query, scored, in store order. *)
Definition matches (self : InfiniteMind) (query : string) : list Scored.t :=
  map (score (word_set query)) (matching (word_set query) (thoughts self)).

(** The matches of a query, ranked. *)
Definition ranked (self : InfiniteMind) (query : string) : list Scored.t :=
  sort_reverse Scored.relevance (matches self query).

Lemma score_loop_f (qw : gset string) (l : list Entry.t) :
  forall acc,
    fold_left (score_step qw) l acc = acc ++ map (score qw) (matching qw l).
Proof.
  induction l as [|t l IH]; intros acc; simpl.
  - by rewrite app_nil_r.
  - rewrite IH. unfold score_step, overlap_count at 1.
    fold (overlap_count qw t).
    destruct (0 <? overlap_count qw t)%nat; simpl; [|reflexivity].
    by rewrite <- app_assoc.
Qed.

Lemma recall_ranked_f (self : InfiniteMind) (query : string) (top_k : Z) :
  recall self query top_k = slice_to (ranked self query) top_k.
Proof.
  unfold recall, ranked, matches. by rewrite score_loop_f.
Qed.

Lemma elem_of_matches_f (self : InfiniteMind) (query : string) (s : Scored.t) :
  s ∈ matches self query <->
  exists t,
    t ∈ thoughts self /\ overlap_count (word_set query) t <> 0%nat /\
    s = Scored.mk t (float_of_nat (overlap_count (word_set query) t)
                     * Entry.importance t)%float.
Proof.
  unfold matches, matching. rewrite list_elem_of_In, in_map_iff. split.
  - intros (t & <- & Hin). apply filter_In in Hin as [Hin Hov].
    exists t. rewrite list_elem_of_In. repeat split; [exact Hin|].
    apply Nat.ltb_lt in Hov. lia.
  - intros (t & Hin & Hov & ->). exists t. split; [reflexivity|].
    apply filter_In. split; [by apply list_elem_of_In|].
    apply Nat.ltb_lt. lia.
Qed.

Lemma matches_store_order_f (self : InfiniteMind) (query : string) :
  map Scored.thought (matches self query) `sublist_of` thoughts self.
Proof.
  unfold matches, matching. rewrite map_map. simpl. rewrite map_id.
  induction (thoughts self) as [|t l IH]; simpl; [constructor|].
  destruct (0 <? _)%nat; by constructor.
Qed.

Lemma elem_of_recall_f (self : InfiniteMind) (query : string) (top_k : Z)
    (s : Scored.t) :
  s ∈ recall self query top_k -> s ∈ matches self query.
Proof.
  rewrite recall_ranked_f. unfold slice_to. intros Hin.
  assert (Hr : s ∈ ranked self query).
  { destruct (0 <=? top_k)%Z; exact (subseteq_take _ _ _ Hin). }
  unfold ranked in Hr. by rewrite sort_reverse_perm_f in Hr.
Qed.

(** C2, as the code has it. The matches are exactly the stored entries
    that share at least one lower-cased word with the query, each paired
    with the float [overlap * importance], in store order; the ranking
    is a permutation of the matches in which pairs of equal relevance
    stand as they stand in the store. When no relevance of a match is a
    NaN, the relevances of the ranking never increase, and so do those
    of the result. For a count [top_k] (not negative) the result is the
    first [top_k] pairs of the ranking; whatever [top_k] is, its pairs
    are matches. *)
Theorem recall_contract_no_nan (self : InfiniteMind) (query : string)
    (top_k : Z) :
  Forall (fun s => is_nan (Scored.relevance s) = false) (matches self query) ->
  ((0 <= top_k)%Z ->
   recall self query top_k = take (Z.to_nat top_k) (ranked self query)) /\
  Permutation (ranked self query) (matches self query) /\
  (forall s,
     s ∈ matches self query <->
     exists t,
       t ∈ thoughts self /\
       size (word_set query ∩ word_set (Entry.content t)) <> 0%nat /\
       s = Scored.mk t
             (float_of_nat (size (word_set query ∩ word_set (Entry.content t)))
              * Entry.importance t)%float) /\
  map Scored.thought (matches self query) `sublist_of` thoughts self /\
  StronglySorted
    (fun a b => (Scored.relevance b <=? Scored.relevance a)%float = true)
    (ranked self query) /\
  (forall r,
     List.filter (fun s => (Scored.relevance s =? r)%float) (ranked self query)
     = List.filter (fun s => (Scored.relevance s =? r)%float)
         (matches self query)) /\
  StronglySorted
    (fun a b => (Scored.relevance b <=? Scored.relevance a)%float = true)
    (recall self query top_k) /\
  (forall s, s ∈ recall self query top_k -> s ∈ matches self query).
Proof.
  intros Hnan.
  assert (Hsorted : StronglySorted (desc Scored.relevance) (ranked self query))
    by (by apply sort_reverse_sorted_f).
  split.
  { intros Hk. rewrite recall_ranked_f. unfold slice_to.
    by rewrite (proj2 (Z.leb_le 0 top_k) Hk). }
  split; [apply sort_reverse_perm_f|].
  split; [apply elem_of_matches_f|].
  split; [apply matches_store_order_f|].
  split; [exact Hsorted|].
  split; [intros r; apply (sort_reverse_stable_f Scored.relevance)|].
  split; [|apply elem_of_recall_f].
  rewrite recall_ranked_f. unfold slice_to.
  destruct (0 <=? top_k)%Z; by apply take_sorted.
Qed.

(** ** Stores with a NaN, and a store with a rounded tie *)

Definition entry (content : string) (importance : float) : Entry.t :=
  Entry.mk content importance 0%float content 0 [].

Definition store (l : list Entry.t) : InfiniteMind :=
  {| thoughts := l;
     raw_thoughts := map Entry.content l;
     associations := ∅;
     importance_scores := ∅;
     thought_frequency := ∅;
     evolution_history := [];
     capacity := 10000;
     _creation_time := 0%float;
     clock := 1 |}.

(** Three thoughts that share the word [x]; the second was ingested with
    [importance=float('nan')]. *)
Definition nan_store : InfiniteMind :=
  store [entry "x a" 1%float; entry "x b" nan; entry "x c" 2%float].

(** C2 fails with a NaN importance: the relevances of the result are
    1.0, nan, 2.0 in this order, and 2.0 stands after 1.0. No order of
    the three matches has relevances that never increase, so the result
    is not sorted whatever the sort does with a NaN. *)
Lemma recall_nan_not_sorted :
  map (fun s => Entry.content (Scored.thought s)) (recall nan_store "x" 5)
  = ["x a"; "x b"; "x c"] /\
  ~ StronglySorted
      (fun a b => (Scored.relevance b <=? Scored.relevance a)%float = true)
      (recall nan_store "x" 5) /\
  forall l,
    Permutation l (matches nan_store "x") ->
    ~ StronglySorted
        (fun a b => (Scored.relevance b <=? Scored.relevance a)%float = true)
        l.
Proof.
  assert (Hm : matches nan_store "x"
               = [Scored.mk (entry "x a" 1%float) 1%float;
                  Scored.mk (entry "x b" nan) nan;
                  Scored.mk (entry "x c" 2%float) 2%float])
    by (vm_compute; reflexivity).
  assert (H : recall nan_store "x" 5 = matches nan_store "x")
    by (vm_compute; reflexivity).
  assert (Hall : forall l,
    Permutation l (matches nan_store "x") ->
    ~ StronglySorted (desc Scored.relevance) l).
  { intros l Hp Hs.
    assert (Hlen : (2 <= length l)%nat).
    { rewrite (Permutation_length Hp), Hm. simpl. lia. }
    pose proof (sorted_no_nan_f _ _ Hlen Hs) as Hnan.
    unfold no_nan in Hnan. rewrite Hp, Hm in Hnan.
    apply Forall_cons in Hnan as [_ Hnan]. apply Forall_cons in Hnan as [Hn _].
    vm_compute in Hn. discriminate. }
  split; [rewrite H, Hm; reflexivity|]. split; [|exact Hall].
  apply Hall. by rewrite H.
Qed.

(** The first thought was ingested with [importance=float('nan')]. *)
Definition nan_first : InfiniteMind :=
  store [entry "a" nan; entry "b" 1%float; entry "c" 0.5%float].

(** C3 fails with a NaN importance: the entry of importance NaN is the
    one evicted, although an entry of importance 0.5 is stored; NaN is
    not at most 0.5, and it equals no importance of the store, whichever
    of them is taken for the minimum. *)
Lemma evict_nan_not_minimum :
  thoughts (_evict_least_important nan_first)
  = [entry "b" 1%float; entry "c" 0.5%float] /\
  (nan <=? 0.5)%float = false /\
  Forall (fun e => (nan =? Entry.importance e)%float = false)
    (thoughts nan_first).
Proof.
  split; [vm_compute; reflexivity|]. split; [vm_compute; reflexivity|].
  repeat constructor.
Qed.

(** Two thoughts whose relevances are equal as floats: 3 * 0.1 is
    0.30000000000000004. *)
Definition tie_store : InfiniteMind :=
  store [entry "x y z" 0x1.999999999999ap-4%float;
         entry "x w" 0x1.3333333333334p-2%float].

Example recall_rounded_tie :
  map (fun s => Entry.content (Scored.thought s))
    (recall tie_store "x y z" 5)
  = ["x y z"; "x w"].
Proof. vm_compute. reflexivity. Qed.

Lemma recall_contract_no_nan_witness :
  StronglySorted
    (fun a b => (Scored.relevance b <=? Scored.relevance a)%float = true)
    (ranked tie_store "x y z").
Proof.
  refine (proj1 (proj2 (proj2 (proj2 (proj2
    (recall_contract_no_nan tie_store "x y z" 5 _)))))).
  assert (H : map Scored.relevance (matches tie_store "x y z")
              = [0x1.3333333333334p-2%float; 0x1.3333333333334p-2%float])
    by (vm_compute; reflexivity).
  destruct (matches tie_store "x y z") as [|s1 [|s2 [|s3 l]]];
    try discriminate H.
  injection H as H1 H2. repeat constructor; [rewrite H1|rewrite H2]; reflexivity.
Defined.

Lemma evict_first_minimum_no_nan_witness :
  exists before evicted after,
    thoughts tie_store = before ++ evicted :: after /\
    thoughts (_evict_least_important tie_store) = before ++ after.
Proof.
  destruct (proj2 (evict_first_minimum_no_nan tie_store))
    as (before & evicted & after & H1 & _ & _ & H4 & _).
  - vm_compute. discriminate.
  - repeat constructor.
  - exists before, evicted, after. split; assumption.
Defined.

(** ** The agent with float priorities *)

(** The head of the sort when no key is a NaN: a largest element, and
    the first of the list among those of its key. *)
Lemma sort_reverse_head_f {A} (key : A -> float) (l : list A) (x : A)
    (rest : list A) :
  no_nan key l ->
  sort_reverse key l = x :: rest ->
  (forall y, y ∈ l -> (key y <=? key x)%float = true) /\
  exists l1 l2,
    l = l1 ++ x :: l2 /\ Forall (fun y => (key y =? key x)%float = false) l1.
Proof.
  intros Hnan Hsort.
  pose proof (sort_reverse_perm_f key l) as Hp.
  pose proof (sort_reverse_sorted_f key l Hnan) as Hs.
  pose proof (sort_reverse_stable_f key (key x) l) as Hst.
  rewrite Hsort in Hp, Hs, Hst.
  assert (Hx : is_nan (key x) = false).
  { unfold no_nan in Hnan. rewrite Forall_forall in Hnan. apply Hnan.
    rewrite <- Hp. left. }
  split.
  - intros y Hy. rewrite <- Hp in Hy.
    apply elem_of_cons in Hy as [->|Hy].
    + apply leb_lt3. repeat split; auto. apply lt3_irrefl.
    + apply StronglySorted_inv in Hs as [_ Hall].
      rewrite Forall_forall in Hall. by apply Hall.
  - unfold with_key in Hst. simpl in Hst.
    rewrite (eqb_refl_ok _ Hx) in Hst. symmetry in Hst.
    destruct (Agent.filter_head_split _ _ _ _ Hst) as (l1 & l2 & Hl & Hall).
    exists l1, l2. split; [exact Hl|exact Hall].
Qed.

(** The elements of a list with their positions, from position [k] on. *)
Fixpoint enumerate_from {A} (k : nat) (l : list A) : list (nat * A) :=
  match l with
  | [] => []
  | t :: l' => (k, t) :: enumerate_from (S k) l'
  end.

Lemma elem_of_enumerate_f {A} (l : list A) :
  forall k j t,
    (j, t) ∈ enumerate_from k l <->
    exists n, j = (k + n)%nat /\ l !! n = Some t.
Proof.
  induction l as [|x l IH]; intros k j t; simpl.
  - split; [intros H; inversion H|]. intros (n & _ & Hn). by destruct n.
  - rewrite elem_of_cons, IH. split.
    + intros [Heq|(n & -> & Hn)].
      * injection Heq as -> ->. exists 0%nat. split; [lia|reflexivity].
      * exists (S n). split; [lia|exact Hn].
    + intros ([|n] & -> & Hn).
      * left. simpl in Hn. injection Hn as ->. f_equal. lia.
      * right. exists n. split; [lia|exact Hn].
Qed.

Lemma enumerate_sorted_f {A} (l : list A) :
  forall k,
    StronglySorted (fun a b : nat * A => (a.1 < b.1)%nat) (enumerate_from k l).
Proof.
  induction l as [|x l IH]; intros k; simpl; constructor; [apply IH|].
  apply Forall_forall. intros [j t] Hin.
  apply elem_of_enumerate_f in Hin as (n & -> & _). simpl. lia.
Qed.

Lemma filter_insert_length_f {A} (f : A -> bool) (l : list A) :
  forall i t t',
    l !! i = Some t -> f t = true -> f t' = false ->
    S (length (List.filter f (<[i := t']> l))) = length (List.filter f l).
Proof.
  induction l as [|x l IH]; intros i t t' Hi Ht Ht'; [by destruct i|].
  destruct i as [|i]; simpl in *.
  - injection Hi as ->. by rewrite Ht, Ht'.
  - destruct (f x); simpl; erewrite <- IH; eauto.
Qed.

Module QuantumAgent.

(** A task dict; the keys ['started_at'], ['completed_at'] and
    ['success'] are absent until they are set. *)
Record Task : Type := mkTask {
  description : string;
  priority : float;
  status : Agent.Status;
  created_at : float;
  metadata : gmap string pyval;
  started_at : option float;
  completed_at : option float;
  success : option bool
}.

(** A record of [goal_history]. *)
Record GoalRecord : Type := mkGoalRecord {
  timestamp : float;
  goals_found : nat;
  memory_size : nat
}.

(** A record of [performance_log]. *)
Record Performance : Type := mkPerformance {
  perf_task : string;
  perf_success : bool;
  perf_reward : float;
  perf_duration : float
}.

(** An element of the result of [prioritize_goals]. *)
Record Prioritized : Type := mkPrioritized {
  goal : pyval;
  priority_score : float;
  category : string
}.

(** The attributes of a [QuantumAgent]; [clock] counts the calls of
    [time.time]; [priority_weights] is a [defaultdict] whose default is
    1.0. *)
Record t : Type := mk {
  memory : list pyval;
  goal_history : list GoalRecord;
  task_queue : list Task;
  performance_log : list Performance;
  learning_rate : float;
  priority_weights : gmap string float;
  _start_time : float;
  clock : nat
}.

Section Methods.

Variable time_time : nat -> float.
Variable py_str : pyval -> string.

(** [QuantumAgent(memory)]: [memory or []]; 0.01 is the float nearest
    to it. *)
Definition __init__ (memory : option (list pyval)) : t :=
  {| memory := default [] memory;
     goal_history := [];
     task_queue := [];
     performance_log := [];
     learning_rate := 0x1.47ae147ae147bp-7%float;
     priority_weights := ∅;
     _start_time := time_time 0;
     clock := 1 |}.

(** [self.recall(query)] *)
Definition recall (self : t) (query : string) : list pyval :=
  let query_lower := Str.lower query in
  List.filter (fun item => Agent.contains query_lower (Str.lower (py_str item)))
    (memory self).

(** [self.evaluate_goals()] *)
Definition evaluate_goals (self : t) : t * list pyval :=
  let goals :=
    List.filter (fun item => Agent.contains "goal" (Str.lower (py_str item)))
      (memory self) in
  ({| memory := memory self;
      goal_history :=
        goal_history self
        ++ [mkGoalRecord (time_time (clock self)) (length goals)
              (length (memory self))];
      task_queue := task_queue self;
      performance_log := performance_log self;
      learning_rate := learning_rate self;
      priority_weights := priority_weights self;
      _start_time := _start_time self;
      clock := S (clock self) |},
   goals).

(** [d[k]] on the [defaultdict]: a missing key is first set to 1.0. *)
Definition weight_get (k : string) (d : gmap string float)
  : gmap string float * float :=
  match d !! k with
  | Some w => (d, w)
  | None => (<[k := 1%float]> d, 1%float)
  end.

(** One turn of the loop of [prioritize_goals]; 1.3 is the float nearest
    to it. *)
Definition prioritize_step (acc : gmap string float * list Prioritized)
    (goal : pyval) : gmap string float * list Prioritized :=
  let goal_str := Str.lower (py_str goal) in
  let '(weights, score) := weight_get goal_str acc.1 in
  let score := if Agent.contains "quantum" goal_str
               then (score * 1.5)%float else score in
  let score := if Agent.contains "critical" goal_str
                  || Agent.contains "urgent" goal_str
               then (score * 2)%float else score in
  let score := if Agent.contains "security" goal_str
               then (score * 0x1.4cccccccccccdp+0)%float else score in
  (weights,
   acc.2 ++ [mkPrioritized goal score (Agent._categorize_goal goal_str)]).

(** [self.prioritize_goals()] *)
Definition prioritize_goals (self : t) : t * list Prioritized :=
  let '(self1, goals) := evaluate_goals self in
  let r := fold_left prioritize_step goals (priority_weights self1, []) in
  ({| memory := memory self1;
      goal_history := goal_history self1;
      task_queue := task_queue self1;
      performance_log := performance_log self1;
      learning_rate := learning_rate self1;
      priority_weights := r.1;
      _start_time := _start_time self1;
      clock := clock self1 |},
   sort_reverse priority_score r.2).

(** [self.add_task(description, priority, metadata)]: [metadata or {}]. *)
Definition add_task (self : t) (description : string)
    (priority : float) (metadata : option (gmap string pyval)) : t :=
  {| memory := memory self;
     goal_history := goal_history self;
     task_queue :=
       task_queue self
       ++ [mkTask description priority Agent.pending (time_time (clock self))
             (default ∅ metadata) None None None];
     performance_log := performance_log self;
     learning_rate := learning_rate self;
     priority_weights := priority_weights self;
     _start_time := _start_time self;
     clock := S (clock self) |}.

(** [self.execute_next_task()]: the result is the task picked, as its
    position in the queue and its value after the two assignments; the
    task is changed in the queue, where it lives. *)
Definition execute_next_task (self : t) : t * option (nat * Task) :=
  let pending :=
    List.filter (fun it => Agent.is_pending (status it.2))
      (enumerate_from 0 (task_queue self)) in
  match sort_reverse (fun it => priority it.2) pending with
  | [] => (self, None)
  | (i, task) :: _ =>
      let task' :=
        mkTask (description task) (priority task) Agent.in_progress
          (created_at task) (metadata task)
          (Some (time_time (clock self))) (completed_at task) (success task) in
      ({| memory := memory self;
          goal_history := goal_history self;
          task_queue := <[i := task']> (task_queue self);
          performance_log := performance_log self;
          learning_rate := learning_rate self;
          priority_weights := priority_weights self;
          _start_time := _start_time self;
          clock := S (clock self) |},
       Some (i, task'))
  end.

(** ** Priorities of goals *)

(** The multipliers lines 50-55 apply to the weight of a goal string,
    one rounded product after the other. *)
Definition boost (goal_str : string) (w : float) : float :=
  let score := if Agent.contains "quantum" goal_str
               then (w * 1.5)%float else w in
  let score := if Agent.contains "critical" goal_str
                  || Agent.contains "urgent" goal_str
               then (score * 2)%float else score in
  if Agent.contains "security" goal_str
  then (score * 0x1.4cccccccccccdp+0)%float else score.

(** The record [prioritize_goals] makes of a goal when the weights at
    the start of the call are [weights]. *)
Definition prioritized (weights : gmap string float) (g : pyval)
  : Prioritized :=
  let goal_str := Str.lower (py_str g) in
  mkPrioritized g (boost goal_str (default 1%float (weights !! goal_str)))
    (Agent._categorize_goal goal_str).

Lemma prioritize_loop_f (weights0 : gmap string float) (goals : list pyval) :
  forall acc,
    (forall k, acc.1 !! k = weights0 !! k \/
               weights0 !! k = None /\ acc.1 !! k = Some 1%float) ->
    let r := fold_left prioritize_step goals acc in
    r.2 = acc.2 ++ map (prioritized weights0) goals /\
    (forall k, r.1 !! k = weights0 !! k \/
               weights0 !! k = None /\ r.1 !! k = Some 1%float) /\
    (forall k w, acc.1 !! k = Some w -> r.1 !! k = Some w) /\
    (forall g, g ∈ goals -> is_Some (r.1 !! Str.lower (py_str g))) /\
    (forall k, (forall g, g ∈ goals -> Str.lower (py_str g) <> k) ->
               r.1 !! k = acc.1 !! k).
Proof.
  induction goals as [|g goals IH]; intros acc Hacc; simpl.
  - split; [by rewrite app_nil_r|]. split; [exact Hacc|].
    split; [auto|]. split; [intros g Hg; inversion Hg|]. auto.
  - set (key := Str.lower (py_str g)).
    assert (Hstep : prioritize_step acc g
      = ((weight_get key acc.1).1, acc.2 ++ [prioritized weights0 g])).
    { unfold prioritize_step, prioritized, boost. fold key.
      assert (Hw : (weight_get key acc.1).2
                   = default 1%float (weights0 !! key)).
      { unfold weight_get. destruct (Hacc key) as [He|[He1 He2]].
        - rewrite He. by destruct (weights0 !! key).
        - by rewrite He1, He2. }
      destruct (weight_get key acc.1) as [ws w]. simpl in *. by rewrite Hw. }
    rewrite Hstep.
    assert (Hget : forall k,
      (weight_get key acc.1).1 !! k = weights0 !! k \/
      weights0 !! k = None /\ (weight_get key acc.1).1 !! k = Some 1%float).
    { intros k. unfold weight_get. destruct (acc.1 !! key) eqn:E;
        [apply Hacc|].
      simpl. destruct (decide (key = k)) as [<-|Hne].
      - rewrite lookup_insert_eq. right. split; [|reflexivity].
        destruct (Hacc key) as [He|[He1 He2]]; congruence.
      - rewrite lookup_insert_ne by exact Hne. apply Hacc. }
    assert (Hkeep : forall k w, acc.1 !! k = Some w ->
                                (weight_get key acc.1).1 !! k = Some w).
    { intros k w Hk. unfold weight_get.
      destruct (acc.1 !! key) eqn:E; [exact Hk|].
      simpl. rewrite lookup_insert_ne; [exact Hk|]. intros <-. congruence. }
    assert (Hhas : is_Some ((weight_get key acc.1).1 !! key)).
    { unfold weight_get. destruct (acc.1 !! key) eqn:E; simpl; [eauto|].
      rewrite lookup_insert_eq. eauto. }
    assert (Hother : forall k, key <> k ->
                               (weight_get key acc.1).1 !! k = acc.1 !! k).
    { intros k Hk. unfold weight_get. destruct (acc.1 !! key) eqn:E;
        [reflexivity|].
      simpl. by rewrite lookup_insert_ne. }
    destruct (IH ((weight_get key acc.1).1, acc.2 ++ [prioritized weights0 g]))
      as (H2 & Hd & Hk & Hs & Ho).
    { exact Hget. }
    simpl in *. split; [by rewrite H2, <- app_assoc|]. split; [exact Hd|].
    split; [intros k w Hkw; by apply Hk, Hkeep|]. split.
    + intros g' Hg'. apply elem_of_cons in Hg' as [->|Hg']; [|by apply Hs].
      destruct Hhas as [w Hw]. exists w. by apply Hk.
    + intros k Hno. rewrite Ho.
      * apply Hother. apply Hno. left.
      * intros g' Hg'. apply Hno. by right.
Qed.

(** X18. [prioritize_goals] returns one record for every goal that
    [evaluate_goals] finds: the goal, its category, and as score its
    weight, 1.0 when it has none, times the boosts of its keywords, each
    product rounded. The call logs the evaluation, gives the weight 1.0
    to every goal string that had none and changes no other weight; the
    memory and the queue stay. When no score is a NaN, the records are
    ordered by score, largest first, goals of equal score in memory
    order. *)
Theorem prioritize_goals_ranked_no_nan (self : t) :
  let self' := (prioritize_goals self).1 in
  let result := (prioritize_goals self).2 in
  let records :=
    map (prioritized (priority_weights self)) (recall self "goal") in
  Permutation result records /\
  (forall k w, priority_weights self !! k = Some w ->
               priority_weights self' !! k = Some w) /\
  (forall g, g ∈ recall self "goal" ->
     priority_weights self' !! Str.lower (py_str g)
     = Some (default 1%float
               (priority_weights self !! Str.lower (py_str g)))) /\
  (forall k, (forall g, g ∈ recall self "goal" -> Str.lower (py_str g) <> k) ->
             priority_weights self' !! k = priority_weights self !! k) /\
  goal_history self'
  = goal_history self
    ++ [mkGoalRecord (time_time (clock self)) (length (recall self "goal"))
          (length (memory self))] /\
  memory self' = memory self /\ task_queue self' = task_queue self /\
  (Forall (fun p => is_nan (priority_score p) = false) records ->
   StronglySorted
     (fun a b => (priority_score b <=? priority_score a)%float = true) result /\
   forall r,
     List.filter (fun p => (priority_score p =? r)%float) result
     = List.filter (fun p => (priority_score p =? r)%float) records).
Proof.
  unfold prioritize_goals. simpl.
  destruct (prioritize_loop_f (priority_weights self) (recall self "goal")
              (priority_weights self, []) (fun k => or_introl eq_refl))
    as (H2 & Hd & Hk & Hs & Ho).
  change (List.filter
            (fun item => Agent.contains "goal" (Str.lower (py_str item)))
            (memory self)) with (recall self "goal").
  simpl in *. rewrite H2.
  split; [apply sort_reverse_perm_f|].
  split; [exact Hk|]. split; [|split; [exact Ho|]].
  - intros g Hg. destruct (Hs g Hg) as [w Hw].
    destruct (Hd (Str.lower (py_str g))) as [He|[He1 He2]].
    + rewrite He in *. by rewrite Hw.
    + by rewrite He1, He2.
  - split; [reflexivity|]. split; [reflexivity|]. split; [reflexivity|].
    intros Hnan. split.
    + by apply (sort_reverse_sorted_f priority_score).
    + intros r. apply (sort_reverse_stable_f priority_score).
Qed.

(** ** The task queue *)

(** A task in progress: [task] after lines 95-96. *)
Definition started (now : float) (task : Task) : Task :=
  mkTask (description task) (priority task) Agent.in_progress
    (created_at task) (metadata task) (Some now) (completed_at task)
    (success task).

(** No pending task of the queue has a NaN for priority. *)
Definition pending_no_nan (self : t) : Prop :=
  Forall (fun task => status task = Agent.pending ->
                      is_nan (priority task) = false) (task_queue self).

Lemma execute_next_task_none (self : t) :
  (execute_next_task self).2 = None <->
  forall task, task ∈ task_queue self -> status task <> Agent.pending.
Proof.
  unfold execute_next_task.
  set (pend := List.filter
                 (fun it : nat * Task => Agent.is_pending (status it.2))
                 (enumerate_from 0 (task_queue self))).
  assert (Hpend : forall j task, (j, task) ∈ pend <->
                    task_queue self !! j = Some task /\
                    status task = Agent.pending).
  { intros j task. subst pend. rewrite list_elem_of_In, filter_In.
    rewrite <- list_elem_of_In, elem_of_enumerate_f. simpl. split.
    - intros [(n & -> & Hn) Hs]. split; [exact Hn|]. by destruct (status task).
    - intros [Hj Hs]. split; [exists j; auto|]. by rewrite Hs. }
  pose proof (sort_reverse_perm_f (fun it : nat * Task => priority it.2) pend)
    as Hp.
  destruct (sort_reverse (fun it : nat * Task => priority it.2) pend)
    as [|[i task] rest]; simpl.
  - split; [|done]. intros _ task Ht Hs.
    apply list_elem_of_lookup in Ht as [j Hj].
    assert (Hin : (j, task) ∈ pend) by (by apply Hpend).
    rewrite <- Hp in Hin. inversion Hin.
  - split; [discriminate|]. intros Hnone. exfalso.
    assert (Hin : (i, task) ∈ pend) by (rewrite <- Hp; left).
    apply Hpend in Hin as [Hi Hs].
    apply (Hnone task); [by eapply list_elem_of_lookup_2|exact Hs].
Qed.

Lemma execute_next_task_cases_f (self : t) :
  pending_no_nan self ->
  (execute_next_task self = (self, None) /\
   forall task, task ∈ task_queue self -> status task <> Agent.pending)
  \/
  (exists i task,
     task_queue self !! i = Some task /\ status task = Agent.pending /\
     (forall j other,
        task_queue self !! j = Some other -> status other = Agent.pending ->
        (priority other <=? priority task)%float = true /\
        ((priority other =? priority task)%float = true -> (i <= j)%nat)) /\
     execute_next_task self
     = ({| memory := memory self;
           goal_history := goal_history self;
           task_queue :=
             <[i := started (time_time (clock self)) task]> (task_queue self);
           performance_log := performance_log self;
           learning_rate := learning_rate self;
           priority_weights := priority_weights self;
           _start_time := _start_time self;
           clock := S (clock self) |},
        Some (i, started (time_time (clock self)) task))).
Proof.
  intros Hnan. unfold execute_next_task.
  set (pend := List.filter
                 (fun it : nat * Task => Agent.is_pending (status it.2))
                 (enumerate_from 0 (task_queue self))).
  assert (Hpend : forall j task, (j, task) ∈ pend <->
                    task_queue self !! j = Some task /\
                    status task = Agent.pending).
  { intros j task. subst pend. rewrite list_elem_of_In, filter_In.
    rewrite <- list_elem_of_In, elem_of_enumerate_f. simpl. split.
    - intros [(n & -> & Hn) Hs]. split; [exact Hn|]. by destruct (status task).
    - intros [Hj Hs]. split; [exists j; auto|]. by rewrite Hs. }
  assert (Hkeys : no_nan (fun it : nat * Task => priority it.2) pend).
  { apply Forall_forall. intros [j task] Hin. apply Hpend in Hin as [Hj Hs].
    unfold pending_no_nan in Hnan. rewrite Forall_forall in Hnan. simpl.
    apply Hnan; [by eapply list_elem_of_lookup_2|exact Hs]. }
  destruct (sort_reverse (fun it : nat * Task => priority it.2) pend)
    as [|[i task] rest] eqn:Hsort.
  - left. split; [reflexivity|]. intros task Ht Hs.
    apply list_elem_of_lookup in Ht as [j Hj].
    assert (Hin : (j, task) ∈ pend) by (by apply Hpend).
    rewrite <- (sort_reverse_perm_f (fun it : nat * Task => priority it.2))
      in Hin.
    rewrite Hsort in Hin. inversion Hin.
  - right. exists i, task.
    destruct (sort_reverse_head_f _ _ _ _ Hkeys Hsort)
      as (Hmax & l1 & l2 & Hl & Hfirst).
    assert (Hin : (i, task) ∈ pend).
    { rewrite Hl. apply elem_of_app. right. left. }
    apply Hpend in Hin as [Hi Hs]. repeat split; try assumption.
    + apply (Hmax (j, other)). by apply Hpend.
    + intros Heq.
      assert (Hjt : (j, other) ∈ pend) by (by apply Hpend).
      rewrite Hl in Hjt. apply elem_of_app in Hjt as [Hjt|Hjt].
      * rewrite Forall_forall in Hfirst. exfalso.
        specialize (Hfirst _ Hjt). simpl in Hfirst. congruence.
      * apply elem_of_cons in Hjt as [Heq'|Hjt]; [injection Heq' as -> _; lia|].
        assert (Hsorted :
          StronglySorted (fun a b : nat * Task => (a.1 < b.1)%nat) pend).
        { apply Agent.filter_strongly_sorted, enumerate_sorted_f. }
        rewrite Hl in Hsorted.
        apply StronglySorted_app_1_r, StronglySorted_inv in Hsorted
          as [_ Hall].
        rewrite Forall_forall in Hall. specialize (Hall _ Hjt). simpl in Hall.
        lia.
Qed.

(** X19. [execute_next_task] returns [None], and changes nothing, exactly
    when no task is pending. Otherwise, when no pending task has a NaN
    for priority, it picks a pending task of the largest priority, the
    earliest in the queue among those, marks it in progress with its
    start time and leaves everything else of the queue as it is: there
    is one pending task less. *)
Theorem execute_next_task_picks_no_nan (self : t) :
  ((execute_next_task self).2 = None <->
   forall task, task ∈ task_queue self -> status task <> Agent.pending) /\
  ((execute_next_task self).2 = None -> (execute_next_task self).1 = self) /\
  (pending_no_nan self ->
   forall i task',
     (execute_next_task self).2 = Some (i, task') ->
     exists task,
       task_queue self !! i = Some task /\ status task = Agent.pending /\
       (forall j other,
          task_queue self !! j = Some other -> status other = Agent.pending ->
          (priority other <=? priority task)%float = true /\
          ((priority other =? priority task)%float = true -> (i <= j)%nat)) /\
       task' = started (time_time (clock self)) task /\
       task_queue (execute_next_task self).1
       = <[i := task']> (task_queue self) /\
       S (length (List.filter (fun task => Agent.is_pending (status task))
                    (task_queue (execute_next_task self).1)))
       = length (List.filter (fun task => Agent.is_pending (status task))
                   (task_queue self))).
Proof.
  split; [apply execute_next_task_none|]. split.
  - unfold execute_next_task.
    destruct (sort_reverse _ _) as [|[i task] rest]; [done|discriminate].
  - intros Hnan.
    destruct (execute_next_task_cases_f self Hnan)
      as [[Heq Hnone]|(i & task & Hi & Hs & Hmax & Heq)]; rewrite Heq; simpl.
    + intros ? ? [=].
    + intros i' task' [= <- <-]. exists task.
      split; [exact Hi|]. split; [exact Hs|]. split; [exact Hmax|].
      split; [reflexivity|]. split; [reflexivity|].
      eapply filter_insert_length_f; [exact Hi|by rewrite Hs|reflexivity].
Qed.

End Methods.

End QuantumAgent.

(** ** An agent at work *)

(** A clock that advances by one second at each call. *)
Definition tick_time (n : nat) : float := float_of_nat n.

(** Three goals in memory, the last one stored with a weight. *)
Definition goal_agent : QuantumAgent.t :=
  let a :=
    QuantumAgent.__init__ tick_time
      (Some [PStr "Goal: ship the quantum build"; PStr "lunch";
             PStr "urgent GOAL: fix security hole"; PStr "goal: rest"]) in
  {| QuantumAgent.memory := QuantumAgent.memory a;
     QuantumAgent.goal_history := QuantumAgent.goal_history a;
     QuantumAgent.task_queue := QuantumAgent.task_queue a;
     QuantumAgent.performance_log := QuantumAgent.performance_log a;
     QuantumAgent.learning_rate := QuantumAgent.learning_rate a;
     QuantumAgent.priority_weights := {["goal: rest" := 0.5%float]};
     QuantumAgent._start_time := QuantumAgent._start_time a;
     QuantumAgent.clock := QuantumAgent.clock a |}.

Example goal_agent_priorities :
  map (fun p => (QuantumAgent.goal p, QuantumAgent.priority_score p,
                 QuantumAgent.category p))
    (QuantumAgent.prioritize_goals tick_time str_basic goal_agent).2
  = [(PStr "urgent GOAL: fix security hole", 0x1.4cccccccccccdp+1%float, "security");
     (PStr "Goal: ship the quantum build", 1.5%float, "quantum");
     (PStr "goal: rest", 0.5%float, "general")].
Proof. vm_compute. reflexivity. Qed.

Lemma prioritize_goals_ranked_no_nan_witness :
  StronglySorted
    (fun a b => (QuantumAgent.priority_score b
                 <=? QuantumAgent.priority_score a)%float = true)
    (QuantumAgent.prioritize_goals tick_time str_basic goal_agent).2.
Proof.
  pose proof (QuantumAgent.prioritize_goals_ranked_no_nan tick_time str_basic
                goal_agent) as H.
  cbv zeta in H. destruct H as (_ & _ & _ & _ & _ & _ & _ & H).
  apply H.
  assert (E : map QuantumAgent.priority_score
                (map (QuantumAgent.prioritized str_basic
                        (QuantumAgent.priority_weights goal_agent))
                   (QuantumAgent.recall str_basic goal_agent "goal"))
              = [1.5%float; 0x1.4cccccccccccdp+1%float; 0.5%float])
    by (vm_compute; reflexivity).
  destruct (map (QuantumAgent.prioritized str_basic
                   (QuantumAgent.priority_weights goal_agent))
              (QuantumAgent.recall str_basic goal_agent "goal"))
    as [|p1 [|p2 [|p3 [|p4 l]]]]; try discriminate E.
  injection E as E1 E2 E3.
  repeat constructor; [rewrite E1|rewrite E2|rewrite E3]; reflexivity.
Defined.

(** Three tasks, two of the largest priority. *)
Definition busy_agent : QuantumAgent.t :=
  QuantumAgent.add_task tick_time
    (QuantumAgent.add_task tick_time
       (QuantumAgent.add_task tick_time
          (QuantumAgent.__init__ tick_time None) "tidy" 1%float None)
       "deploy" 2.5%float None)
    "release" 2.5%float None.

Lemma execute_next_task_picks_no_nan_witness :
  exists task,
    QuantumAgent.task_queue busy_agent !! 1%nat = Some task /\
    QuantumAgent.description task = "deploy" /\
    forall j other,
      QuantumAgent.task_queue busy_agent !! j = Some other ->
      QuantumAgent.status other = Agent.pending ->
      (QuantumAgent.priority other <=? QuantumAgent.priority task)%float = true
      /\ ((QuantumAgent.priority other =? QuantumAgent.priority task)%float
          = true -> (1 <= j)%nat).
Proof.
  assert (Hnan : QuantumAgent.pending_no_nan busy_agent).
  { unfold QuantumAgent.pending_no_nan. vm_compute QuantumAgent.task_queue.
    repeat (constructor; [intros _; reflexivity|]). constructor. }
  destruct (proj2 (proj2
      (QuantumAgent.execute_next_task_picks_no_nan tick_time busy_agent))
      Hnan 1%nat
      (QuantumAgent.started (tick_time 4)
         (QuantumAgent.mkTask "deploy" 2.5%float Agent.pending (tick_time 2)
            ∅ None None None)))
    as (task & Hi & _ & Hmax & _).
  { vm_compute. reflexivity. }
  exists task. split; [exact Hi|]. split; [|exact Hmax].
  vm_compute in Hi. injection Hi as <-. reflexivity.
Defined.

End Binary64.
